(** * Shorty: short-code generation and visit-count aggregation

    A shallow embedding of the Go URL shortener [shorty].  The repository
    holds three revisions of the same program:

    - [src/main.go] (and [src/unnamed/part_002], the same code with log
      lines, whose [handleRedirect] trims the prefix "/#/" instead of
      "/r/"): the write-back visit cache ([visitCountCache],
      [writeCacheToDB]) and a [createShortURL] that always mints a code;
    - [src/unnamed/part_001]: the deduplicating [createShortURL], the
      [created_at] column and a [handleRedirect] that updates the store
      directly.

    The functions that are identical in the three revisions
    ([randomString], [shortURLExists], [getLongURL]) are embedded once; the
    others live in a module named after the file they come from.  All of
    them act on one [World]: the [url_mapping] table, the process-local
    visit cache, the journal of SQL statements issued so far and the number
    of random bytes drawn. *)

From Stdlib Require Import ZArith List Ascii String Lia.
From stdpp Require Import base gmap strings list sorting.

(** ** Go values *)

(** A Go [int] on a 64-bit platform: a signed two's complement integer. *)
Definition max_int : Z := 2 ^ 63 - 1.
Definition min_int : Z := - 2 ^ 63.
Definition wrap_int (z : Z) : Z := ((z + 2 ^ 63) mod 2 ^ 64 - 2 ^ 63)%Z.

(** Go's [(value, error)] results, and run-time panics. *)
Inductive error := ErrNoRows | ErrStorage | ErrConstraint.

Inductive Outcome (A : Type) :=
| Ok (a : A)
| Err (e : error)
| Panic (msg : string).
Arguments Ok {A} a.
Arguments Err {A} e.
Arguments Panic {A} msg.

(** [cfg.ShortURL] *)
Record ShortURL := { Length : Z; Charset : string }.

(** ** The store *)

(** A row of [url_mapping].  [created_at] is [None] for SQL NULL (rows of a
    table that was created without the column). *)
Record Row := {
  short_url : string;
  long_url : string;
  visit_count : Z;
  created_at : option Z
}.

(** The SQL statements of the program. *)
Inductive Stmt :=
| SelectShortByLong (longURL : string)
    (* SELECT short_url FROM url_mapping WHERE long_url = ? ORDER BY rowid ASC LIMIT 1 *)
| SelectLongByShort (shortURL : string)
    (* SELECT long_url FROM url_mapping WHERE short_url = ? *)
| SelectExists (shortURL : string)
    (* SELECT EXISTS(SELECT 1 FROM url_mapping WHERE short_url=?) *)
| InsertMapping (shortURL longURL : string) (stamped : bool)
    (* INSERT INTO url_mapping (short_url, long_url [, created_at]) VALUES (?, ? [, datetime('now')]) *)
| UpdateVisits (count : Z) (shortURL : string).
    (* UPDATE url_mapping SET visit_count = visit_count + ? WHERE short_url = ? *)

Record World := {
  url_mapping : list Row;              (* the table, in rowid order *)
  journal : list (Stmt * bool);        (* statements issued, with "no storage error" *)
  visitCountCache : gmap string Z;     (* var visitCountCache = make(map[string]int) *)
  drawn : nat                          (* bytes read from crypto/rand so far *)
}.

(** What the program does not control: the configuration, which statements
    hit a storage error (by position in the journal), the bytes that
    [crypto/rand] delivers and the wall clock of the store. *)
Record Env := {
  cfg : ShortURL;
  faulty : nat -> Stmt -> bool;
  entropy : nat -> ascii;
  clock : nat -> Z
}.

Definition with_table (t : list Row) (w : World) : World :=
  {| url_mapping := t; journal := journal w;
     visitCountCache := visitCountCache w; drawn := drawn w |}.

Definition with_cache (m : gmap string Z) (w : World) : World :=
  {| url_mapping := url_mapping w; journal := journal w;
     visitCountCache := m; drawn := drawn w |}.

(** *** SQL semantics on the table *)

Definition has_short (c : string) (r : Row) : bool := bool_decide (short_url r = c).
Definition has_long (u : string) (r : Row) : bool := bool_decide (long_url r = u).

Definition select_short_by_long (u : string) (t : list Row) : option string :=
  short_url <$> List.find (has_long u) t.

Definition select_long_by_short (c : string) (t : list Row) : option string :=
  long_url <$> List.find (has_short c) t.

Definition select_exists (c : string) (t : list Row) : bool :=
  existsb (has_short c) t.

(** [short_url] is the primary key: inserting a taken key is refused. *)
Definition insert_mapping (c u : string) (stamp : option Z) (t : list Row)
  : option (list Row) :=
  if select_exists c t then None
  else Some (t ++ [ {| short_url := c; long_url := u;
                       visit_count := 0; created_at := stamp |} ]).

(** [visit_count = visit_count + ?] on the rows of the code.  The store
    adds INTEGERs exactly as long as the sum stays in the 64-bit range;
    past it the store keeps a REAL, which this embedding does not follow.
    Every theorem that states a sum of visit counts carries the range
    ([in_int64]) as a hypothesis. *)
Definition in_int64 (z : Z) : Prop := (min_int <= z <= max_int)%Z.

Definition bump (n : Z) (c : string) (r : Row) : Row :=
  if has_short c r
  then {| short_url := short_url r; long_url := long_url r;
          visit_count := (visit_count r + n)%Z; created_at := created_at r |}
  else r.

Definition update_visits (n : Z) (c : string) (t : list Row) : list Row :=
  map (bump n c) t.

(** *** Issuing a statement *)

(** Every [db.Exec] and [db.QueryRow] is entered in the journal; the
    environment decides whether it hits a storage error. *)
Definition issue (E : Env) (s : Stmt) (w : World) : bool * World :=
  let ok := negb (faulty E (length (journal w)) s) in
  (ok, {| url_mapping := url_mapping w; journal := journal w ++ [(s, ok)];
          visitCountCache := visitCountCache w; drawn := drawn w |}).

(** ** Functions shared by the three revisions *)

(** [rand.Read(b)] *)
Definition randRead (E : Env) (n : nat) (w : World) : list ascii * World :=
  (map (entropy E) (seq (drawn w) n),
   {| url_mapping := url_mapping w; journal := journal w;
      visitCountCache := visitCountCache w; drawn := drawn w + n |}).

(** [charset[b % byte(len(charset))]] *)
Definition pick (charset : string) (b : ascii) : Outcome ascii :=
  let m := String.length charset mod 256 in
  if m =? 0 then Panic "integer divide by zero"
  else match String.get (nat_of_ascii b mod m) charset with
       | Some c => Ok c
       | None => Panic "index out of range"
       end.

(** [for i := range b { b[i] = ... }] *)
Fixpoint fill (charset : string) (b : list ascii) : Outcome string :=
  match b with
  | [] => Ok EmptyString
  | x :: b' =>
      match pick charset x with
      | Ok c =>
          match fill charset b' with
          | Ok s => Ok (String c s)
          | o => o
          end
      | Err e => Err e
      | Panic msg => Panic msg
      end
  end.

Definition randomString (E : Env) (length : Z) (w : World) : Outcome string * World :=
  if (length <? 0)%Z then (Panic "makeslice: len out of range", w)
  else
    let '(b, w1) := randRead E (Z.to_nat length) w in
    (fill (Charset (cfg E)) b, w1).

Definition shortURLExists (E : Env) (shortURL : string) (w : World)
  : Outcome bool * World :=
  let '(ok, w1) := issue E (SelectExists shortURL) w in
  if ok then (Ok (select_exists shortURL (url_mapping w1)), w1)
  else (Err ErrStorage, w1).

Definition getLongURL (E : Env) (shortURL : string) (w : World)
  : Outcome string * World :=
  let '(ok, w1) := issue E (SelectLongByShort shortURL) w in
  if ok then
    match select_long_by_short shortURL (url_mapping w1) with
    | Some longURL => (Ok longURL, w1)
    | None => (Err ErrNoRows, w1)
    end
  else (Err ErrStorage, w1).

(** A byte of a Go string. *)
Definition char_of (s : string) (c : ascii) : Prop := In c (list_ascii_of_string s).

(** [db.Exec] of the INSERT.  The statement of [part_001] carries
    [datetime('now')]; the one of [main.go] names two columns only, on a
    table that has no [created_at] column. *)
Definition execInsert (E : Env) (c u : string) (stamped : bool) (w : World)
  : Outcome unit * World :=
  let '(ok, w1) := issue E (InsertMapping c u stamped) w in
  if ok then
    let stamp := if stamped then Some (clock E (length (journal w))) else None in
    match insert_mapping c u stamp (url_mapping w1) with
    | Some t => (Ok tt, with_table t w1)
    | None => (Err ErrConstraint, w1)
    end
  else (Err ErrStorage, w1).

(** [db.Exec] of the UPDATE; zero rows affected is a success. *)
Definition execUpdate (E : Env) (count : Z) (shortURL : string) (w : World)
  : Outcome unit * World :=
  let '(ok, w1) := issue E (UpdateVisits count shortURL) w in
  if ok then (Ok tt, with_table (update_visits count shortURL (url_mapping w1)) w1)
  else (Err ErrStorage, w1).

(** The [for { ... }] loop of [createShortURL], the same in the three
    revisions up to the length passed to [randomString] and the columns of
    the INSERT.  The loop has no bound: [fuel] counts the iterations that
    are run, and the result is [None] when they are used up with every
    candidate taken. *)
Fixpoint mint (E : Env) (length : Z) (stamped : bool) (fuel : nat)
    (longURL : string) (w : World) : option (Outcome string) * World :=
  match fuel with
  | O => (None, w)
  | S fuel' =>
      match randomString E length w with
      | (Ok shortURL, w1) =>
          match shortURLExists E shortURL w1 with
          | (Ok false, w2) =>
              match execInsert E shortURL longURL stamped w2 with
              | (Ok _, w3) => (Some (Ok shortURL), w3)
              | (Err e, w3) => (Some (Err e), w3)
              | (Panic msg, w3) => (Some (Panic msg), w3)
              end
          | (Ok true, w2) => mint E length stamped fuel' longURL w2
          | (Err e, w2) => (Some (Err e), w2)
          | (Panic msg, w2) => (Some (Panic msg), w2)
          end
      | (Err e, w1) => (Some (Err e), w1)
      | (Panic msg, w1) => (Some (Panic msg), w1)
      end
  end.

(** [strings.TrimPrefix] *)
Definition TrimPrefix (s prefix : string) : string :=
  if String.prefix prefix s
  then String.substring (String.length prefix)
         (String.length s - String.length prefix) s
  else s.

(** [http.Redirect(w, r, location, http.StatusFound)] *)
Inductive Response := Redirect (location : string).

(** Reading a Go map: the zero value for a missing key. *)
Definition pending (w : World) (shortURL : string) : Z :=
  default 0%Z (visitCountCache w !! shortURL).

(** [SELECT visit_count FROM url_mapping WHERE short_url = ?] *)
Definition visits_of (c : string) (t : list Row) : option Z :=
  visit_count <$> List.find (has_short c) t.

(** The order in which [range] walks the cache is chosen by the run time:
    every key once, in any order. *)
Definition range_order (order : list string) (m : gmap string Z) : Prop :=
  NoDup order /\ forall k, k ∈ order <-> is_Some (m !! k).

(** ** [src/main.go] (and [src/unnamed/part_002]) *)
Module MainGo.

Definition createShortURL (E : Env) (fuel : nat) (longURL : string) (w : World)
  : option (Outcome string) * World :=
  mint E 8 false fuel longURL w.

(** [visitCountCache[shortURL]++] *)
Definition record_visit (shortURL : string) (w : World) : World :=
  with_cache (<[shortURL := wrap_int (pending w shortURL + 1)]> (visitCountCache w)) w.

Definition handleRedirect (E : Env) (path : string) (w : World) : Response * World :=
  let shortURL := TrimPrefix path "/r/" in
  match getLongURL E shortURL w with
  | (Ok longURL, w1) => (Redirect longURL, record_visit shortURL w1)
  | (_, w1) => (Redirect "/", w1)
  end.

(** [for shortURL, count := range visitCountCache { ... }], with the keys
    in the order [order] of the range. *)
Fixpoint writeCacheToDB (E : Env) (order : list string) (w : World) : World :=
  match order with
  | [] => w
  | shortURL :: rest =>
      match visitCountCache w !! shortURL with
      | None => writeCacheToDB E rest w
      | Some count =>
          match execUpdate E count shortURL w with
          | (Ok _, w1) =>
              writeCacheToDB E rest
                (with_cache (<[shortURL := 0%Z]> (visitCountCache w1)) w1)
          | (_, w1) => writeCacheToDB E rest w1
          end
      end
  end.

End MainGo.

(** ** [src/unnamed/part_001] *)
Module Part001.

Definition createShortURL (E : Env) (fuel : nat) (longURL : string) (w : World)
  : option (Outcome string) * World :=
  let '(ok, w1) := issue E (SelectShortByLong longURL) w in
  if ok then
    match select_short_by_long longURL (url_mapping w1) with
    | Some existingShortURL => (Some (Ok existingShortURL), w1)
    | None => mint E (Length (cfg E)) true fuel longURL w1
    end
  else (Some (Err ErrStorage), w1).

Definition handleRedirect (E : Env) (path : string) (w : World) : Response * World :=
  let shortURL := TrimPrefix path "/r/" in
  if bool_decide (shortURL = EmptyString) then (Redirect "/", w)
  else
    match getLongURL E shortURL w with
    | (Ok longURL, w1) =>
        if bool_decide (longURL = EmptyString) then (Redirect "/", w1)
        else (Redirect longURL, snd (execUpdate E 1 shortURL w1))
    | (_, w1) => (Redirect "/", w1)
    end.

(** The statement [UPDATE url_mapping SET created_at = CURRENT_TIMESTAMP
    WHERE created_at IS NULL]. *)
Definition stamp_null (now : Z) (r : Row) : Row :=
  match created_at r with
  | Some _ => r
  | None => {| short_url := short_url r; long_url := long_url r;
               visit_count := visit_count r; created_at := Some now |}
  end.

(** The effect of that UPDATE on the table.  [main] runs it in one place
    only, under [if !columnExists]: see [startup]. *)
Definition migrate (now : Z) (t : list Row) : list Row := map (stamp_null now) t.

(** The start-up of [main] on a database that exists.  [columnExists] is
    the answer of [pragma_table_info] for [created_at].  Only when the
    column is missing does [main] run [ALTER TABLE ... ADD COLUMN
    created_at TEXT] (every row then holds a NULL there) and the UPDATE
    above; a table that has the column is left as it is. *)
Definition startup (columnExists : bool) (now : Z) (t : list Row) : list Row :=
  if columnExists then t else migrate now t.

End Part001.

(** ** The process as a sequence of events

    The service that the tests of the repository exercise: the creation of
    [part_001] next to the visit cache of [main.go]. *)

Inductive Request :=
| Create (longURL : string) (fuel : nat)       (* Part001.createShortURL *)
| Lookup (shortURL : string)                   (* getLongURL *)
| Visit (path : string)                        (* MainGo.handleRedirect *)
| VisitDirect (path : string)                  (* Part001.handleRedirect *)
| Tick (order : list string).                  (* the ticker fires: writeCacheToDB *)

Definition step (E : Env) (req : Request) (w : World) : World :=
  match req with
  | Create u fuel => snd (Part001.createShortURL E fuel u w)
  | Lookup c => snd (getLongURL E c w)
  | Visit path => snd (MainGo.handleRedirect E path w)
  | VisitDirect path => snd (Part001.handleRedirect E path w)
  | Tick order => MainGo.writeCacheToDB E order w
  end.

Definition run (E : Env) (reqs : list Request) (w : World) : World :=
  fold_left (fun w req => step E req w) reqs w.

(** What no request may change in a row. *)
Definition frame (r : Row) : string * string * option Z :=
  (short_url r, long_url r, created_at r).

(** The row carries the time of the store at the INSERT that added it, a
    statement of the journal [j] that went through. *)
Definition stamped (E : Env) (j : list (Stmt * bool)) (r : Row) : Prop :=
  exists i, created_at r = Some (clock E i) /\
            j !! i = Some (InsertMapping (short_url r) (long_url r) true, true).

(** [n] redirects of the same path, one after the other. *)
Fixpoint visits (E : Env) (n : nat) (path : string) (w : World) : World :=
  match n with
  | O => w
  | S n' => visits E n' path (snd (MainGo.handleRedirect E path w))
  end.

(** [n] calls of [createShortURL] with the same long URL; the results are
    collected. *)
Fixpoint creates (E : Env) (n fuel : nat) (longURL : string) (w : World)
  : list (option (Outcome string)) * World :=
  match n with
  | O => ([], w)
  | S n' =>
      let '(r, w1) := Part001.createShortURL E fuel longURL w in
      let '(rs, w2) := creates E n' fuel longURL w1 in
      (r :: rs, w2)
  end.

(** The journal entries added between two worlds. *)
Definition issued_since (w w' : World) : list (Stmt * bool) :=
  drop (length (journal w)) (journal w').

(** ** The goroutines, statement by statement

    [writeCacheToDB] runs in its own goroutine, net/http serves every
    request in a goroutine of its own, and the cache is a plain map with
    no lock around it.  The body of the range loop is three steps: the
    range reads a key and its count, [db.Exec] runs, the entry is stored
    as 0.  The [visitCountCache[shortURL]++] of a handler is two: the
    entry is read, then the value read plus one is stored.  A schedule
    names the goroutine that takes the next step.  Every step is taken
    alone: two operations on the map at the same instant, which the Go
    run time may abort, are outside this embedding. *)
Inductive FlushPC :=
| AtRange (rest : list string)
| AtExec (shortURL : string) (count : Z) (rest : list string)
| AtReset (shortURL : string) (rest : list string).

Inductive Action :=
| FlushStep
| VisitRead (handler : nat) (shortURL : string)
| VisitWrite (handler : nat).

(** The flush goroutine, the handlers that have read an entry and not yet
    stored it (with the code and the value read), and what they share. *)
Record Machine := {
  flusher : FlushPC;
  handlers : gmap nat (string * Z);
  shared : World
}.

Definition flush_step (E : Env) (pc : FlushPC) (w : World) : FlushPC * World :=
  match pc with
  | AtRange [] => (AtRange [], w)
  | AtRange (k :: rest) =>
      match visitCountCache w !! k with
      | Some count => (AtExec k count rest, w)
      | None => (AtRange rest, w)
      end
  | AtExec k count rest =>
      match execUpdate E count k w with
      | (Ok _, w1) => (AtReset k rest, w1)
      | (_, w1) => (AtRange rest, w1)
      end
  | AtReset k rest =>
      (AtRange rest, with_cache (<[k := 0%Z]> (visitCountCache w)) w)
  end.

Definition act (E : Env) (a : Action) (s : Machine) : Machine :=
  match a with
  | FlushStep =>
      {| flusher := fst (flush_step E (flusher s) (shared s));
         handlers := handlers s;
         shared := snd (flush_step E (flusher s) (shared s)) |}
  | VisitRead h c =>
      {| flusher := flusher s;
         handlers := <[h := (c, pending (shared s) c)]> (handlers s);
         shared := shared s |}
  | VisitWrite h =>
      match handlers s !! h with
      | Some (c, x) =>
          {| flusher := flusher s;
             handlers := delete h (handlers s);
             shared := with_cache (<[c := wrap_int (x + 1)]>
                                     (visitCountCache (shared s))) (shared s) |}
      | None => s
      end
  end.

Definition interleave (E : Env) (sched : list Action) (s : Machine) : Machine :=
  fold_left (fun s a => act E a s) sched s.

(** The process when the flush starts on [order] and no handler is at
    work. *)
Definition start (order : list string) (w : World) : Machine :=
  {| flusher := AtRange order; handlers := ∅; shared := w |}.

(** The flush goroutine has read the count of [c] and not yet stored 0. *)
Definition in_window (pc : FlushPC) (c : string) : bool :=
  match pc with
  | AtRange _ => false
  | AtExec k _ _ => bool_decide (k = c)
  | AtReset k _ => bool_decide (k = c)
  end.

(** No goroutine is in the middle of its work on the entry of [c]. *)
Definition free (c : string) (s : Machine) : bool :=
  negb (in_window (flusher s) c)
  && forallb (fun e => negb (bool_decide (e.2.1 = c))) (map_to_list (handlers s)).

(** The step starts work on the entry of [c]: the range comes to [c], or a
    handler reads the entry. *)
Definition enters (c : string) (a : Action) (s : Machine) : bool :=
  match a with
  | FlushStep =>
      match flusher s with
      | AtRange (k :: _) => bool_decide (k = c)
      | _ => false
      end
  | VisitRead _ k => bool_decide (k = c)
  | VisitWrite _ => false
  end.

(** A handler that reads has no increment under way. *)
Definition idle (a : Action) (s : Machine) : bool :=
  match a with
  | VisitRead h _ => bool_decide (handlers s !! h = None)
  | _ => true
  end.

(** Over the schedule, work on the entry of [c] starts only when no other
    goroutine is in the middle of its own: what a lock around the entry
    would enforce. *)
Fixpoint exclusive (E : Env) (c : string) (sched : list Action) (s : Machine)
  : bool :=
  match sched with
  | [] => true
  | a :: rest =>
      (negb (enters c a s) || free c s) && idle a s
      && exclusive E c rest (act E a s)
  end.

(** The step completes an increment of [c]. *)
Definition completes (c : string) (a : Action) (s : Machine) : Z :=
  match a with
  | VisitWrite h =>
      match handlers s !! h with
      | Some (k, _) => if bool_decide (k = c) then 1%Z else 0%Z
      | None => 0%Z
      end
  | _ => 0%Z
  end.

(** The increments of [c] that the schedule completes. *)
Fixpoint count_visits (E : Env) (c : string) (sched : list Action) (s : Machine)
  : Z :=
  match sched with
  | [] => 0%Z
  | a :: rest => (completes c a s + count_visits E c rest (act E a s))%Z
  end.

(** The visits of [c] that are not lost: persisted, or still pending. *)
Definition accounted (c : string) (w : World) : Z :=
  (default 0 (visits_of c (url_mapping w)) + pending w c)%Z.

(** [total] visits of [c] are accounted for in the state [s]: in the row
    and the cache together, and in the row alone once the flush has added
    the count that it is about to store as 0.  A handler at work on [c]
    holds the current count, is the only one, and the flush is not at work
    on [c]. *)
Definition settled (c : string) (total : Z) (s : Machine) : Prop :=
  exists p,
    visits_of c (url_mapping (shared s)) = Some p /\
    (0 <= pending (shared s) c)%Z /\
    (forall h x, handlers s !! h = Some (c, x) ->
       x = pending (shared s) c /\ in_window (flusher s) c = false /\
       forall h' x', handlers s !! h' = Some (c, x') -> h' = h) /\
    match flusher s with
    | AtRange _ => (p + pending (shared s) c = total)%Z
    | AtExec k count _ =>
        (p + pending (shared s) c = total)%Z /\
        (k = c -> visitCountCache (shared s) !! c = Some count)
    | AtReset k _ =>
        if bool_decide (k = c) then p = total
        else (p + pending (shared s) c = total)%Z
    end.

(** The [k]-th candidate of the minting loop when [from] random bytes
    have been drawn before it starts. *)
Definition candidate (E : Env) (length : Z) (from k : nat) : Outcome string :=
  fill (Charset (cfg E))
       (map (entropy E) (seq (from + k * Z.to_nat length) (Z.to_nat length))).

(** ** Concrete configurations *)

Definition no_fault : nat -> Stmt -> bool := fun _ _ => false.

Definition demo_env : Env :=
  {| cfg := {| Length := 4; Charset := "abc123" |};
     faulty := no_fault;
     entropy := fun i => ascii_of_nat (7 * i + 3);
     clock := fun i => (1700000000 + Z.of_nat i)%Z |}.

Definition row (c u : string) (n : Z) (t : option Z) : Row :=
  {| short_url := c; long_url := u; visit_count := n; created_at := t |}.

Definition world (t : list Row) (m : gmap string Z) : World :=
  {| url_mapping := t; journal := []; visitCountCache := m; drawn := 0 |}.

Definition empty_world : World := world [] ∅.

Definition example_com : string := "https://example.com".

(** A store that holds one mapping. *)
Definition demo_store : World :=
  world [row "1a2b" example_com 0 (Some 1700000000%Z)] ∅.

(** The scenario of the test of the flush: one entry with visits pending,
    one with none. *)
Definition tally_world : World :=
  world [row "abc1" "https://a.example" 0 None; row "def2" "https://d.example" 0 None]
        (<["abc1" := 5%Z]> (<["def2" := 0%Z]> ∅)).

(** A store that refuses every UPDATE of the row [abc1]. *)
Definition abc1_fails : nat -> Stmt -> bool :=
  fun _ s =>
    match s with
    | UpdateVisits _ c => bool_decide (c = "abc1")
    | _ => false
    end.

Definition flaky_env : Env :=
  {| cfg := cfg demo_env; faulty := abc1_fails;
     entropy := entropy demo_env; clock := clock demo_env |}.

Definition busy_world : World :=
  world [row "abc1" "https://a.example" 0 None; row "def2" "https://d.example" 0 None]
        (<["abc1" := 5%Z]> (<["def2" := 3%Z]> ∅)).

(** [range_order], decided. *)
Definition range_orderb (order : list string) (m : gmap string Z) : bool :=
  bool_decide (NoDup order) &&
  bool_decide (list_to_set order =@{gset string} dom m).

Definition abc1_world : World :=
  world [row "abc1" "https://a.example" 0 None] ∅.

(** Two interleavings that lose a visit.  In the first the handler
    increments the entry after the flush has run its UPDATE and before it
    stores 0; in the second two handlers read the entry before either
    stores it, with no flush at work. *)
Definition race : list Action :=
  [FlushStep; FlushStep; VisitRead 0 "abc1"; VisitWrite 0; FlushStep].

Definition race_of_handlers : list Action :=
  [VisitRead 0 "abc1"; VisitRead 1 "abc1"; VisitWrite 0; VisitWrite 1].

Definition race_world : World :=
  world [row "abc1" "https://a.example" 0 None] (<["abc1" := 5%Z]> ∅).

(** A configuration with an empty charset. *)
Definition no_charset_env : Env :=
  {| cfg := {| Length := 0; Charset := "" |}; faulty := no_fault;
     entropy := entropy demo_env; clock := clock demo_env |}.

(** ** Invariants of the process *)

(** Every code that has an entry in the cache has a row in the table. *)
Definition cached_codes_have_rows (w : World) : Prop :=
  forall c, c ∈ dom (visitCountCache w) -> select_exists c (url_mapping w) = true.

(** A cache entry for a code that has no row. *)
Definition orphan_world : World :=
  world [row "abc1" "https://a.example" 0 None] (<["gone" := 7%Z]> ∅).

(** [n] redirects of the same path served by the [handleRedirect] of
    [part_001], one after the other. *)
Fixpoint direct_visits (E : Env) (n : nat) (path : string) (w : World) : World :=
  match n with
  | O => w
  | S n' => direct_visits E n' path (snd (Part001.handleRedirect E path w))
  end.

(** ** [src/unnamed/part_001]: the statistics

    [getStats] and [getLinkStats] only read the table.  Their queries are
    not among the statements of the journal; which of them hit a storage
    error is decided by [fails].  The order of [ORDER BY visit_count DESC]
    among rows with equal counts and the permutation that [sort.Slice]
    (not stable) produces are left to the environment.

    [created_at] holds the text of [datetime('now')] or
    [CURRENT_TIMESTAMP], which [time.Parse] with the layout
    [2006-01-02 15:04:05] always accepts; a NULL cannot be scanned into
    the Go string.  [date_of] is [DATE(created_at)] and [today] is
    [time.Now().Format("2006-01-02")].

    A Go slice is a window on an array: the three slices of [Stats] are
    kept as windows and the arrays live in a heap, so that what
    [sort.Slice] does to the array is seen through every window on it. *)
Module Part001Stats.

Inductive Query :=
| CountLinks
| SumClicks
| SumClicksToday
| SelectAllLinks
| SelectLink (shortURL : string).

Inductive Failure := StorageFailure | NoRows | NullCreatedAt.

Inductive Result (A : Type) :=
| Done (a : A)
| Failed (e : Failure).
Arguments Done {A} a.
Arguments Failed {A} e.

Record LinkStats := {
  ShortURL : string;
  LongURL : string;
  VisitCount : Z;
  CreatedAt : Z
}.

Record Slice := { array : nat; offset : nat; len : nat }.

Record Stats := {
  TotalLinks : Z;
  TotalClicks : Z;
  ClicksToday : Z;
  PopularLinks : Slice;
  RecentLinks : Slice;
  MostClickedLinks : Slice
}.

Record StatsEnv := {
  fails : Query -> bool;
  by_visits : list Row -> list Row;
  sortSlice : (LinkStats -> LinkStats -> bool) -> list LinkStats -> list LinkStats;
  date_of : Z -> Z;
  today : Z
}.

(** [func min(a, b int) int] *)
Definition min (a b : Z) : Z := if (a <? b)%Z then a else b.

(** [rows.Scan(&link.ShortURL, &link.LongURL, &link.VisitCount, &createdAtStr)]
    followed by [time.Parse]. *)
Definition scan_link (r : Row) : Result LinkStats :=
  match created_at r with
  | Some t => Done {| ShortURL := short_url r; LongURL := long_url r;
                      VisitCount := visit_count r; CreatedAt := t |}
  | None => Failed NullCreatedAt
  end.

(** [for rows.Next() { ...; allLinks = append(allLinks, link) }] *)
Fixpoint scan_rows (rows : list Row) : Result (list LinkStats) :=
  match rows with
  | [] => Done []
  | r :: rest =>
      match scan_link r with
      | Failed e => Failed e
      | Done link =>
          match scan_rows rest with
          | Done links => Done (link :: links)
          | Failed e => Failed e
          end
      end
  end.

(** [COALESCE(SUM(visit_count), 0)] *)
Definition sum_visits (t : list Row) : Z :=
  foldr (fun r acc => (visit_count r + acc)%Z) 0%Z t.

Definition created_today (S : StatsEnv) (r : Row) : bool :=
  match created_at r with
  | Some t => bool_decide (date_of S t = today S)
  | None => false
  end.

(** The arrays behind the slices. *)
Definition alloc (h : gmap nat (list LinkStats)) (l : list LinkStats)
  : nat * gmap nat (list LinkStats) :=
  let a := fresh (dom h) in (a, <[a := l]> h).

(** [s[:k]] *)
Definition slice_to (s : Slice) (k : nat) : Slice :=
  {| array := array s; offset := offset s; len := k |}.

(** The elements seen through a slice. *)
Definition elems (h : gmap nat (list LinkStats)) (s : Slice) : list LinkStats :=
  take (len s) (drop (offset s) (default [] (h !! array s))).

(** [sort.Slice(s, less)]: the window of [s] is sorted where it lies. *)
Definition sort_in_place
    (sorter : (LinkStats -> LinkStats -> bool) -> list LinkStats -> list LinkStats)
    (less : LinkStats -> LinkStats -> bool) (s : Slice)
    (h : gmap nat (list LinkStats)) : gmap nat (list LinkStats) :=
  match h !! array s with
  | Some arr =>
      <[array s := take (offset s) arr
                   ++ sorter less (take (len s) (drop (offset s) arr))
                   ++ drop (offset s + len s) arr]> h
  | None => h
  end.

(** [allLinks[i].CreatedAt.After(allLinks[j].CreatedAt)] *)
Definition created_after (a b : LinkStats) : bool := (CreatedAt b <? CreatedAt a)%Z.

Definition getStats (S : StatsEnv) (t : list Row) (h : gmap nat (list LinkStats))
  : Result (Stats * gmap nat (list LinkStats)) :=
  if fails S CountLinks then Failed StorageFailure else
  let totalLinks := Z.of_nat (length t) in
  if fails S SumClicks then Failed StorageFailure else
  let totalClicks := sum_visits t in
  if fails S SumClicksToday then Failed StorageFailure else
  let clicksToday := sum_visits (List.filter (created_today S) t) in
  if fails S SelectAllLinks then Failed StorageFailure else
  match scan_rows (by_visits S t) with
  | Failed e => Failed e
  | Done links =>
      let '(a, h1) := alloc h links in
      let allLinks := {| array := a; offset := 0; len := length links |} in
      let popular := slice_to allLinks (Z.to_nat (min 10 (Z.of_nat (len allLinks)))) in
      let mostClicked := slice_to allLinks (Z.to_nat (min 10 (Z.of_nat (len allLinks)))) in
      let h2 := sort_in_place (sortSlice S) created_after allLinks h1 in
      let recent := slice_to allLinks (Z.to_nat (min 10 (Z.of_nat (len allLinks)))) in
      Done ({| TotalLinks := totalLinks; TotalClicks := totalClicks;
               ClicksToday := clicksToday; PopularLinks := popular;
               RecentLinks := recent; MostClickedLinks := mostClicked |}, h2)
  end.

Definition getLinkStats (S : StatsEnv) (shortURL : string) (t : list Row)
  : Result LinkStats :=
  if fails S (SelectLink shortURL) then Failed StorageFailure
  else
    match List.find (has_short shortURL) t with
    | Some r => scan_link r
    | None => Failed NoRows
    end.

(** No element of the list is more recent than one before it. *)
Definition newest_first (l : list LinkStats) : Prop :=
  StronglySorted (fun a b => (CreatedAt b <= CreatedAt a)%Z) l.

(** What [sort.Slice] promises for [created_after]: the same elements,
    none more recent than one before it. *)
Definition sorts_by_recency (S : StatsEnv) : Prop :=
  forall l, sortSlice S created_after l ≡ₚ l /\
            newest_first (sortSlice S created_after l).

End Part001Stats.

(** A sort for the examples: [merge_sort] of stdpp on "not less the other
    way round". *)
Definition demo_sort (less : Part001Stats.LinkStats -> Part001Stats.LinkStats -> bool)
    (l : list Part001Stats.LinkStats) : list Part001Stats.LinkStats :=
  @merge_sort _ (fun a b => less b a = false)
    (fun a b => decide (less b a = false)) l.

Definition demo_stats_env : Part001Stats.StatsEnv :=
  {| Part001Stats.fails := fun _ => false;
     Part001Stats.by_visits := fun t => t;
     Part001Stats.sortSlice := demo_sort;
     Part001Stats.date_of := fun t => (t / 86400)%Z;
     Part001Stats.today := 19675 |}.

(** Two links: the older one has the visits. *)
Definition two_links : list Row :=
  [row "old1" "https://a.example" 9 (Some 1700000000%Z);
   row "new2" "https://b.example" 1 (Some 1700000500%Z)].

(** A table written by the revision of [main.go]: it has no [created_at]
    column. *)
Definition legacy_links : list Row :=
  [row "old1" "https://a.example" 9 None;
   row "new2" "https://b.example" 1 None].

(** A table that has the column, with a row that holds a NULL there. *)
Definition patchy_links : list Row :=
  [row "old1" "https://a.example" 9 None;
   row "new2" "https://b.example" 1 (Some 1700000500%Z)].

(** ** [src/main.go]: the create handler

    What the handler reads of the request: the method, the Content-Type
    header and [r.FormValue("url")].  [url.ParseRequestURI] belongs to the
    standard library and is passed in as [parseRequestURI] (does it return
    a nil error).  A panic of [createShortURL] leaves the handler. *)
Module MainGoCreate.

Record HttpRequest := {
  Method : string;
  ContentType : string;
  FormURL : string
}.

Inductive Reply :=
| Found (location : string)                  (* http.Redirect(w, r, location, http.StatusFound) *)
| HttpError (message : string) (code : nat)  (* http.Error(w, message, code) *)
| Written (body : string)                    (* fmt.Fprintf(w, ...) *)
| Aborted (msg : string).                    (* panic *)

Definition handleCreate (E : Env) (parseRequestURI : string -> bool) (fuel : nat)
    (r : HttpRequest) (w : World) : option Reply * World :=
  if negb (bool_decide (Method r = "POST")) then (Some (Found "/"), w)
  else if negb (bool_decide (ContentType r = "application/x-www-form-urlencoded"))
  then (Some (HttpError "Invalid Content-Type" 400), w)
  else
    let longURL := FormURL r in
    if negb (parseRequestURI longURL) then (Some (HttpError "Invalid URL" 400), w)
    else if 2048 <? String.length longURL
    then (Some (HttpError "URL is too long" 400), w)
    else
      match MainGo.createShortURL E fuel longURL w with
      | (Some (Ok shortURL), w1) => (Some (Written ("goby.lol/r/" +:+ shortURL)), w1)
      | (Some (Err _), w1) =>
          (Some (HttpError "Failed to create short URL" 500), w1)
      | (Some (Panic msg), w1) => (Some (Aborted msg), w1)
      | (None, w1) => (None, w1)
      end.

(** The four guards of the handler, together. *)
Definition admitted (parseRequestURI : string -> bool) (r : HttpRequest) : bool :=
  bool_decide (Method r = "POST")
  && bool_decide (ContentType r = "application/x-www-form-urlencoded")
  && parseRequestURI (FormURL r)
  && (String.length (FormURL r) <=? 2048).

End MainGoCreate.

(** A stand-in for [url.ParseRequestURI] in the examples: absolute paths
    and strings with a scheme separator. *)
Definition demo_parse (s : string) : bool :=
  match s with
  | String "/" _ => true
  | _ => match index 0 ":" s with Some _ => true | None => false end
  end.

Definition post_example : MainGoCreate.HttpRequest :=
  {| MainGoCreate.Method := "POST";
     MainGoCreate.ContentType := "application/x-www-form-urlencoded";
     MainGoCreate.FormURL := example_com |}.

(** ** [src/unnamed/part_002]: the redirect handler

    The same handler as in [main.go], except for the prefix that it
    trims. *)
Module Part002.

Definition handleRedirect (E : Env) (path : string) (w : World) : Response * World :=
  let shortURL := TrimPrefix path "/#/" in
  match getLongURL E shortURL w with
  | (Ok longURL, w1) => (Redirect longURL, MainGo.record_visit shortURL w1)
  | (_, w1) => (Redirect "/", w1)
  end.

End Part002.

(** ** [src/unnamed/part_001]: the dispatch under [/r/]

    The function literal registered for ["/r/"] in [main]. *)
Module Part001Route.

(** [strings.HasSuffix] *)
Definition HasSuffix (s suffix : string) : bool :=
  (String.length suffix <=? String.length s)
  && bool_decide (String.substring (String.length s - String.length suffix)
                    (String.length suffix) s = suffix).

(** [strings.TrimSuffix] *)
Definition TrimSuffix (s suffix : string) : string :=
  if HasSuffix s suffix
  then String.substring 0 (String.length s - String.length suffix) s
  else s.

Inductive Route :=
| ToLinkStats (shortURL : string)   (* handleLinkStats(w, r, shortURL) *)
| ToRedirect.                       (* handleRedirect(w, r) *)

Definition dispatch (urlPath : string) : Route :=
  let path := TrimPrefix urlPath "/r/" in
  if HasSuffix path "/stats" then ToLinkStats (TrimSuffix path "/stats")
  else ToRedirect.

End Part001Route.

(** ** A flush that fails once *)

(** A store that refuses the UPDATE that adds 3, and no other statement. *)
Definition plus_three_fails : nat -> Stmt -> bool :=
  fun _ s =>
    match s with
    | UpdateVisits n _ => bool_decide (n = 3%Z)
    | _ => false
    end.

Definition hiccup_env : Env :=
  {| cfg := cfg demo_env; faulty := plus_three_fails;
     entropy := entropy demo_env; clock := clock demo_env |}.

(** Three redirects of [/r/abc1] and a flush whose UPDATE fails. *)
Definition after_failed_flush : World :=
  MainGo.writeCacheToDB hiccup_env ["abc1"]
    (visits hiccup_env 3 "/r/abc1" abc1_world).

(** ** Tactics

    [settle p] opens the four parts of [settled] with the row count [p];
    [no_handler H] closes the part on handlers when none is at work on the
    code. *)
Ltac settle p := exists p; split; [|split; [|split]].
Ltac no_handler Hno := intros ?h ?x ?Hx; exfalso; exact (Hno _ _ Hx).

(** * Properties *)

(** ** randomString *)

Lemma get_char_of (s : string) (i : nat) (c : ascii) :
  String.get i s = Some c -> char_of s c.
Proof.
  revert i. induction s as [|a s IH]; intros i H; simpl in H.
  - discriminate.
  - destruct i as [|i].
    + injection H as ->. left. reflexivity.
    + right. exact (IH i H).
Qed.

Lemma get_lt (s : string) (i : nat) :
  i < String.length s -> exists c, String.get i s = Some c.
Proof.
  revert i. induction s as [|a s IH]; intros i H; simpl in *.
  - lia.
  - destruct i as [|i]; [eauto|]. apply IH. lia.
Qed.

Lemma pick_ok (charset : string) (b : ascii) :
  String.length charset mod 256 <> 0 ->
  exists c, pick charset b = Ok c /\ char_of charset c.
Proof.
  intros Hm. unfold pick.
  destruct (Nat.eqb_spec (String.length charset mod 256) 0) as [?|_]; [contradiction|].
  destruct (get_lt charset (nat_of_ascii b mod (String.length charset mod 256))) as [c Hc].
  - pose proof (Nat.mod_upper_bound (nat_of_ascii b) _ Hm).
    pose proof (Nat.Div0.mod_le (String.length charset) 256). lia.
  - exists c. rewrite Hc. split; [reflexivity|]. eapply get_char_of, Hc.
Qed.

Lemma fill_ok (charset : string) (b : list ascii) :
  String.length charset mod 256 <> 0 ->
  exists s, fill charset b = Ok s /\ String.length s = length b /\
            forall c, char_of s c -> char_of charset c.
Proof.
  intros Hm. induction b as [|x b (s & Hs & Hlen & Hin)]; simpl.
  - exists EmptyString. repeat split. intros c [].
  - destruct (pick_ok charset x Hm) as (c & -> & Hc). rewrite Hs.
    exists (String c s). simpl. repeat split; [congruence|].
    intros c' [<-|H]; auto.
Qed.

Lemma fill_panic (charset : string) (b : list ascii) :
  String.length charset mod 256 = 0 -> b <> [] ->
  fill charset b = Panic "integer divide by zero".
Proof.
  intros Hm Hb. destruct b as [|x b]; [contradiction|].
  simpl. unfold pick. rewrite Hm. reflexivity.
Qed.

(** C9, as the code has it.  [randomString(n)] returns, for every
    [n >= 0]: when the length of the charset modulo 256 is not zero, a
    string of exactly [n] characters (the bytes of a Go string), each one a
    character of the charset; when [n = 0], the empty string, whatever the
    charset; when the length of the charset modulo 256 is zero (an empty
    charset, or one of 256, 512, ... bytes) and [n >= 1], the first
    [b[i] % byte(len(charset))] divides by zero and the call panics.  A
    non-empty charset of at most 255 bytes meets the precondition. *)
Theorem randomString_total (E : Env) (n : Z) (w : World) :
  (0 <= n)%Z ->
  let m := String.length (Charset (cfg E)) mod 256 in
  (m <> 0 ->
   exists s, fst (randomString E n w) = Ok s /\
             String.length s = Z.to_nat n /\
             forall c, char_of s c -> char_of (Charset (cfg E)) c) /\
  (n = 0%Z -> fst (randomString E n w) = Ok EmptyString) /\
  (m = 0 -> (0 < n)%Z ->
   fst (randomString E n w) = Panic "integer divide by zero") /\
  (0 < String.length (Charset (cfg E)) <= 255 -> m <> 0).
Proof.
  intros Hn m. unfold randomString.
  destruct (Z.ltb_spec n 0) as [?|_]; [lia|]. simpl.
  split; [|split; [|split]].
  - intros Hm.
    destruct (fill_ok (Charset (cfg E)) (map (entropy E) (seq (drawn w) (Z.to_nat n))) Hm)
      as (s & Hs & Hlen & Hin).
    exists s. rewrite Hs, Hlen, length_map, length_seq. auto.
  - intros ->. reflexivity.
  - intros Hm Hpos. apply fill_panic; [exact Hm|].
    destruct (Z.to_nat n) as [|k] eqn:Hk; [lia|]. discriminate.
  - intros [Hlo Hhi]. subst m. rewrite Nat.mod_small; lia.
Qed.

Lemma randomString_total_witness :
  ((0 <= 4)%Z /\
   exists s, fst (randomString demo_env 4 empty_world) = Ok s /\
             String.length s = Z.to_nat 4 /\
             forall c, char_of s c -> char_of (Charset (cfg demo_env)) c) /\
  ((0 <= 0)%Z /\
   fst (randomString no_charset_env 0 empty_world) = Ok EmptyString) /\
  ((0 <= 4)%Z /\ String.length (Charset (cfg no_charset_env)) mod 256 = 0 /\
   fst (randomString no_charset_env 4 empty_world) = Panic "integer divide by zero").
Proof.
  split; [|split].
  - split; [lia|].
    apply (randomString_total demo_env 4 empty_world); [lia|].
    vm_compute. discriminate.
  - split; [lia|].
    apply (randomString_total no_charset_env 0 empty_world); [lia | reflexivity].
  - split; [lia|]. split; [reflexivity|].
    apply (randomString_total no_charset_env 4 empty_world); [lia | reflexivity | lia].
Defined.

(** C9, as the claim has it, fails for [n = 0]: the range over an empty
    slice never evaluates the modulo, and the call returns the empty string
    whatever the charset. *)
Lemma randomString_zero_no_panic :
  String.length (Charset (cfg no_charset_env)) mod 256 = 0 /\
  fst (randomString no_charset_env 0 empty_world) = Ok EmptyString.
Proof. split; reflexivity. Qed.

(** ** The store and the journal *)

Lemma issue_ok (E : Env) (s : Stmt) (w : World) :
  faulty E (length (journal w)) s = false ->
  issue E s w =
    (true, {| url_mapping := url_mapping w; journal := journal w ++ [(s, true)];
              visitCountCache := visitCountCache w; drawn := drawn w |}).
Proof. intros H. unfold issue. rewrite H. reflexivity. Qed.

Lemma issued_since_snoc (w : World) (e : Stmt * bool) (t : list Row)
    (m : gmap string Z) (d : nat) :
  issued_since w {| url_mapping := t; journal := journal w ++ [e];
                    visitCountCache := m; drawn := d |} = [e].
Proof.
  unfold issued_since. simpl. rewrite drop_app_length. reflexivity.
Qed.

Lemma find_unique (u : string) (t : list Row) (r : Row) :
  In r t -> long_url r = u ->
  (forall r', In r' t -> long_url r' = u -> short_url r' = short_url r) ->
  select_short_by_long u t = Some (short_url r).
Proof.
  intros Hin Hu Huniq. unfold select_short_by_long.
  destruct (List.find (has_long u) t) as [r'|] eqn:Hf; simpl.
  - apply find_some in Hf as [Hin' Hl]. unfold has_long in Hl.
    apply bool_decide_eq_true_1 in Hl. f_equal. auto.
  - eapply find_none in Hf; [|exact Hin]. unfold has_long in Hf.
    apply bool_decide_eq_false_1 in Hf. contradiction.
Qed.

(** ** createShortURL: the dedup path *)

Lemma createShortURL_existing (E : Env) (fuel : nat) (u c : string) (w : World) :
  select_short_by_long u (url_mapping w) = Some c ->
  faulty E (length (journal w)) (SelectShortByLong u) = false ->
  Part001.createShortURL E fuel u w =
    (Some (Ok c),
     {| url_mapping := url_mapping w;
        journal := journal w ++ [(SelectShortByLong u, true)];
        visitCountCache := visitCountCache w; drawn := drawn w |}).
Proof.
  intros Hc Hf. unfold Part001.createShortURL.
  rewrite (issue_ok _ _ _ Hf). simpl. rewrite Hc. reflexivity.
Qed.

Lemma creates_existing (E : Env) (n fuel : nat) (u c : string) (w : World) :
  select_short_by_long u (url_mapping w) = Some c ->
  (forall i, faulty E i (SelectShortByLong u) = false) ->
  fst (creates E n fuel u w) = replicate n (Some (Ok c)) /\
  url_mapping (snd (creates E n fuel u w)) = url_mapping w.
Proof.
  intros Hc Hf. revert w Hc. induction n as [|n IH]; intros w Hc; simpl.
  - split; reflexivity.
  - rewrite (createShortURL_existing E fuel u c w Hc (Hf _)).
    match goal with |- context [creates E n fuel u ?w1] =>
      destruct (IH w1 Hc) as [IH1 IH2];
      destruct (creates E n fuel u w1) as [rs w2] end.
    simpl in *. split; congruence.
Qed.

Lemma select_first_row (u : string) (t1 t2 : list Row) (r : Row) :
  Forall (fun x => long_url x <> u) t1 ->
  long_url r = u ->
  select_short_by_long u (t1 ++ r :: t2) = Some (short_url r).
Proof.
  intros Hno Hr. unfold select_short_by_long.
  induction Hno as [|x t1 Hx _ IH]; simpl.
  - unfold has_long. rewrite bool_decide_eq_true_2 by exact Hr. reflexivity.
  - unfold has_long at 1. rewrite bool_decide_eq_false_2 by exact Hx. exact IH.
Qed.

(** [createShortURL] of [part_001].  When [r] is the first row of the
    table, in rowid order, whose [long_url] is [u], the call issues the one
    query by [long_url], returns the code of [r] and inserts nothing: the
    table is the one before the call and no random byte is drawn.  Any
    number of repeated calls return that code again and leave the table as
    it was. *)
Lemma Part001_createShortURL_dedup (E : Env) (fuel : nat) (u : string)
    (t1 t2 : list Row) (r : Row) (w : World) :
  url_mapping w = t1 ++ r :: t2 ->
  Forall (fun x => long_url x <> u) t1 ->
  long_url r = u ->
  (forall i, faulty E i (SelectShortByLong u) = false) ->
  let '(res, w') := Part001.createShortURL E fuel u w in
  res = Some (Ok (short_url r)) /\
  url_mapping w' = url_mapping w /\
  issued_since w w' = [(SelectShortByLong u, true)] /\
  drawn w' = drawn w /\
  forall n, fst (creates E n fuel u w) = replicate n (Some (Ok (short_url r))) /\
            url_mapping (snd (creates E n fuel u w)) = url_mapping w.
Proof.
  intros Ht Hno Hr Hf.
  assert (Hc : select_short_by_long u (url_mapping w) = Some (short_url r))
    by (rewrite Ht; apply select_first_row; assumption).
  rewrite (createShortURL_existing E fuel u _ w Hc (Hf _)).
  split; [reflexivity|]. split; [reflexivity|].
  split; [apply issued_since_snoc|]. split; [reflexivity|].
  intros n. apply (creates_existing E n fuel u _ w Hc Hf).
Qed.

(** C1, on [src/main.go].  The table maps [https://a.example] to [abc1].
    [createShortURL] of [main.go] issues no query by [long_url]: it draws a
    code of 8 bytes, finds it free, inserts a second row for the same long
    URL and returns the new code, and the next call does so again.
    [createShortURL] of [part_001], on the same table, returns [abc1] and
    leaves the table as it is. *)
Theorem MainGo_createShortURL_no_dedup :
  let u := "https://a.example" in
  url_mapping abc1_world = [row "abc1" u 0 None] /\
  MainGo.createShortURL demo_env 1 u abc1_world
  = (Some (Ok "123abc12"),
     {| url_mapping := [row "abc1" u 0 None; row "123abc12" u 0 None];
        journal := [(SelectExists "123abc12", true);
                    (InsertMapping "123abc12" u false, true)];
        visitCountCache := ∅; drawn := 8 |}) /\
  (let w1 := snd (MainGo.createShortURL demo_env 1 u abc1_world) in
   fst (MainGo.createShortURL demo_env 1 u w1) = Some (Ok "3abc123a") /\
   map short_url (url_mapping (snd (MainGo.createShortURL demo_env 1 u w1)))
   = ["abc1"; "123abc12"; "3abc123a"]) /\
  fst (Part001.createShortURL demo_env 1 u abc1_world) = Some (Ok "abc1") /\
  url_mapping (snd (Part001.createShortURL demo_env 1 u abc1_world))
  = url_mapping abc1_world.
Proof. cbv zeta. repeat split; vm_compute; reflexivity. Qed.

(** ** createShortURL: minting a code *)

Lemma fill_Ok_inv (charset : string) (b : list ascii) (s : string) :
  fill charset b = Ok s ->
  String.length s = length b /\ forall c, char_of s c -> char_of charset c.
Proof.
  revert s. induction b as [|x b IH]; intros s H; simpl in H.
  - injection H as <-. split; [reflexivity|]. intros c [].
  - unfold pick in H.
    destruct (String.length charset mod 256 =? 0); [discriminate|].
    destruct (String.get _ charset) as [c|] eqn:Hget; [|discriminate].
    destruct (fill charset b) as [s'| |]; try discriminate.
    injection H as <-. destruct (IH s' eq_refl) as [Hlen Hin].
    simpl. split; [congruence|].
    intros c' [<-|Hc']; [eapply get_char_of, Hget | auto].
Qed.

Lemma randomString_Ok_inv (E : Env) (len : Z) (w w1 : World) (s : string) :
  randomString E len w = (Ok s, w1) ->
  String.length s = Z.to_nat len /\
  (forall c, char_of s c -> char_of (Charset (cfg E)) c) /\
  url_mapping w1 = url_mapping w /\ journal w1 = journal w /\
  visitCountCache w1 = visitCountCache w.
Proof.
  unfold randomString. destruct (len <? 0)%Z; [discriminate|]. simpl.
  intros H. injection H as Hs <-. apply fill_Ok_inv in Hs as [Hlen Hin].
  rewrite length_map, length_seq in Hlen. simpl. auto.
Qed.

Lemma shortURLExists_inv (E : Env) (c : string) (w w1 : World) (b : bool) :
  shortURLExists E c w = (Ok b, w1) ->
  b = select_exists c (url_mapping w) /\ url_mapping w1 = url_mapping w /\
  visitCountCache w1 = visitCountCache w.
Proof.
  unfold shortURLExists, issue.
  destruct (negb _); intros H; [|discriminate].
  injection H as <- <-. simpl. auto.
Qed.

Lemma execInsert_inv (E : Env) (c u : string) (st : bool) (w w1 : World) (x : unit) :
  execInsert E c u st w = (Ok x, w1) ->
  exists stamp,
    url_mapping w1 = url_mapping w ++ [row c u 0 stamp] /\
    (st = true -> stamp = Some (clock E (length (journal w)))) /\
    (st = false -> stamp = None) /\
    visitCountCache w1 = visitCountCache w.
Proof.
  unfold execInsert, issue, insert_mapping.
  destruct (negb _); [|discriminate]. simpl.
  destruct (select_exists c (url_mapping w)); [discriminate|].
  intros H. inversion H; subst; clear H. simpl.
  eexists. split; [reflexivity|]. destruct st; repeat split; congruence.
Qed.

(** Whatever the fuel and the storage errors, a code that the loop returns
    has the requested length, is made of bytes of the charset, was free
    and now heads the one row appended to the table. *)
Lemma mint_Ok_inv (E : Env) (len : Z) (st : bool) (fuel : nat) (u c : string)
    (w w' : World) :
  mint E len st fuel u w = (Some (Ok c), w') ->
  String.length c = Z.to_nat len /\
  (forall ch, char_of c ch -> char_of (Charset (cfg E)) ch) /\
  select_exists c (url_mapping w) = false /\
  exists stamp, url_mapping w' = url_mapping w ++ [row c u 0 stamp] /\
                (st = true -> stamp <> None).
Proof.
  revert w. induction fuel as [|fuel IH]; intros w H; simpl in H; [discriminate|].
  destruct (randomString E len w) as [[s| |] w1] eqn:Hr; try discriminate.
  apply randomString_Ok_inv in Hr as (Hlen & Hin & Ht1 & _ & _).
  destruct (shortURLExists E s w1) as [[[|]| |] w2] eqn:Hx; try discriminate.
  - apply shortURLExists_inv in Hx as (_ & Ht2 & _).
    destruct (IH w2 H) as (? & ? & Hfree & stamp & Happ & Hst).
    rewrite Ht2, Ht1 in Hfree, Happ. eauto 10.
  - apply shortURLExists_inv in Hx as (Hfree & Ht2 & _).
    destruct (execInsert E s u st w2) as [[x| |] w3] eqn:Hi; try discriminate.
    injection H as -> ->.
    apply execInsert_inv in Hi as (stamp & Happ & Hst & _ & _).
    rewrite Ht2, Ht1 in Happ. rewrite Ht1 in Hfree.
    repeat split; auto. exists stamp. split; [exact Happ|].
    intros ->. rewrite Hst by reflexivity. discriminate.
Qed.

Lemma randomString_eq (E : Env) (len : Z) (w : World) :
  (0 <= len)%Z ->
  randomString E len w =
    (candidate E len (drawn w) 0,
     {| url_mapping := url_mapping w; journal := journal w;
        visitCountCache := visitCountCache w;
        drawn := drawn w + Z.to_nat len |}).
Proof.
  intros Hlen. unfold randomString, candidate, randRead.
  destruct (Z.ltb_spec len 0) as [?|_]; [lia|].
  simpl. rewrite Nat.add_0_r. reflexivity.
Qed.

Lemma candidate_shift (E : Env) (len : Z) (from k : nat) :
  candidate E len (from + Z.to_nat len) k = candidate E len from (S k).
Proof.
  unfold candidate. simpl. rewrite Nat.add_assoc. reflexivity.
Qed.

(** The loop returns as soon as a candidate is free: when the [k]-th one
    is, [k + 1] iterations are enough. *)
Lemma mint_total (E : Env) (len : Z) (st : bool) (k : nat) (u : string) (w : World) :
  (forall i s, faulty E i s = false) ->
  (0 <= len)%Z ->
  String.length (Charset (cfg E)) mod 256 <> 0 ->
  (exists s, candidate E len (drawn w) k = Ok s /\
             select_exists s (url_mapping w) = false) ->
  exists c w', mint E len st (S k) u w = (Some (Ok c), w').
Proof.
  intros Hf Hlen Hm. revert w.
  induction k as [|k IH]; intros w (s & Hs & Hfree).
  - simpl. rewrite randomString_eq, Hs by exact Hlen.
    unfold shortURLExists, execInsert, insert_mapping, issue.
    rewrite !Hf. cbn -[select_exists]. rewrite !Hfree, Hf. cbn. eauto.
  - change (mint E len st (S (S k)) u w)
      with (match randomString E len w with
            | (Ok shortURL, w1) =>
                match shortURLExists E shortURL w1 with
                | (Ok false, w2) =>
                    match execInsert E shortURL u st w2 with
                    | (Ok _, w3) => (Some (Ok shortURL), w3)
                    | (Err e, w3) => (Some (Err e), w3)
                    | (Panic msg, w3) => (Some (Panic msg), w3)
                    end
                | (Ok true, w2) => mint E len st (S k) u w2
                | (Err e, w2) => (Some (Err e), w2)
                | (Panic msg, w2) => (Some (Panic msg), w2)
                end
            | (Err e, w1) => (Some (Err e), w1)
            | (Panic msg, w1) => (Some (Panic msg), w1)
            end).
    rewrite randomString_eq by exact Hlen.
    destruct (fill_ok (Charset (cfg E))
                (map (entropy E) (seq (drawn w + 0 * Z.to_nat len) (Z.to_nat len))) Hm)
      as (s0 & Hs0 & _).
    fold (candidate E len (drawn w) 0) in Hs0. rewrite Hs0.
    unfold shortURLExists, issue. rewrite Hf. cbn -[select_exists mint].
    destruct (select_exists s0 (url_mapping w)) eqn:Hx.
    + apply IH. cbn -[select_exists]. exists s. rewrite candidate_shift. auto.
    + unfold execInsert, insert_mapping, issue. rewrite Hf. cbn -[select_exists].
      rewrite Hx. eauto.
Qed.

(** [createShortURL] of [part_001].  For a long URL that no row of the
    store holds, with no storage error, a configured length that is not
    negative and a charset whose length modulo 256 is not zero: as soon as
    one candidate of the loop is free ([k] is its index), the call
    returns, and what it returns is a code of exactly [cfg.ShortURL.Length]
    bytes, every one a byte of [cfg.ShortURL.Charset]; the code was free,
    and the one row appended maps it to the long URL. *)
Lemma createShortURL_mints_code (E : Env) (k : nat) (u : string) (w : World) :
  select_short_by_long u (url_mapping w) = None ->
  (forall i s, faulty E i s = false) ->
  (0 <= Length (cfg E))%Z ->
  String.length (Charset (cfg E)) mod 256 <> 0 ->
  (exists s, candidate E (Length (cfg E)) (drawn w) k = Ok s /\
             select_exists s (url_mapping w) = false) ->
  exists c w',
    Part001.createShortURL E (S k) u w = (Some (Ok c), w') /\
    String.length c = Z.to_nat (Length (cfg E)) /\
    (forall ch, char_of c ch -> char_of (Charset (cfg E)) ch) /\
    select_exists c (url_mapping w) = false /\
    exists stamp, url_mapping w' = url_mapping w ++ [row c u 0 (Some stamp)].
Proof.
  intros Hnew Hf Hlen Hm Hk. unfold Part001.createShortURL.
  rewrite (issue_ok _ _ _ (Hf _ _)).
  cbv zeta iota beta. cbn [url_mapping]. rewrite Hnew.
  match goal with |- context [mint E ?l ?st ?f u ?w1] =>
    destruct (mint_total E l st k u w1 Hf Hlen Hm Hk) as (c & w' & Hmint) end.
  exists c, w'. split; [exact Hmint|].
  apply mint_Ok_inv in Hmint as (H1 & H2 & H3 & stamp & H4 & H5).
  simpl in H3, H4. repeat split; auto.
  destruct stamp as [t|]; [eauto | exfalso; apply H5; reflexivity].
Qed.

Lemma createShortURL_mints_code_witness :
  select_short_by_long example_com (url_mapping empty_world) = None /\
  exists c w',
    Part001.createShortURL demo_env 1 example_com empty_world = (Some (Ok c), w') /\
    String.length c = Z.to_nat (Length (cfg demo_env)) /\
    (forall ch, char_of c ch -> char_of (Charset (cfg demo_env)) ch) /\
    select_exists c (url_mapping empty_world) = false /\
    exists stamp, url_mapping w' = url_mapping empty_world ++ [row c example_com 0 (Some stamp)].
Proof.
  split; [reflexivity|].
  apply (createShortURL_mints_code demo_env 0 example_com empty_world).
  - reflexivity.
  - intros i s. reflexivity.
  - vm_compute. discriminate.
  - vm_compute. discriminate.
  - exists "123a". split; reflexivity.
Defined.

(** C3, on [src/main.go].  The configuration asks for codes of 4 bytes
    and the store is empty.  [createShortURL] of [main.go] calls
    [randomString(8)] whatever [cfg.ShortURL.Length] says and returns a code
    of 8 bytes (every one a byte of the charset).  [createShortURL] of
    [part_001] passes [cfg.ShortURL.Length] and returns 4 bytes. *)
Theorem MainGo_createShortURL_ignores_length :
  Length (cfg demo_env) = 4%Z /\
  Charset (cfg demo_env) = "abc123" /\
  url_mapping empty_world = [] /\
  fst (MainGo.createShortURL demo_env 1 example_com empty_world)
  = Some (Ok "123abc12") /\
  String.length "123abc12" = 8 /\
  fst (Part001.createShortURL demo_env 1 example_com empty_world)
  = Some (Ok "123a").
Proof. repeat split; vm_compute; reflexivity. Qed.

(** The revision of [main.go] has no lookup by long URL and asks for 8
    bytes whatever the configuration says. *)
Lemma MainGo_createShortURL_length (E : Env) (fuel : nat) (u c : string) (w w' : World) :
  MainGo.createShortURL E fuel u w = (Some (Ok c), w') ->
  String.length c = 8 /\
  exists stamp, url_mapping w' = url_mapping w ++ [row c u 0 stamp].
Proof.
  intros H. apply mint_Ok_inv in H as (H1 & _ & _ & stamp & H2 & _).
  split; [exact H1 | eauto].
Qed.

(** ** The UPDATE of the visit count *)

Lemma find_bump (n : Z) (k c : string) (t : list Row) :
  List.find (has_short c) (update_visits n k t)
  = bump n k <$> List.find (has_short c) t.
Proof.
  induction t as [|r t IH]; simpl; [reflexivity|].
  assert (Hkey : has_short c (bump n k r) = has_short c r).
  { unfold bump. destruct (has_short k r); reflexivity. }
  rewrite Hkey. destruct (has_short c r); [reflexivity | exact IH].
Qed.

Lemma visits_of_update (n : Z) (c : string) (t : list Row) :
  visits_of c (update_visits n c t) = (fun v => (v + n)%Z) <$> visits_of c t.
Proof.
  unfold visits_of. rewrite find_bump.
  destruct (List.find (has_short c) t) as [r|] eqn:Hf; simpl; [|reflexivity].
  apply find_some in Hf as [_ Hr]. unfold bump. rewrite Hr. reflexivity.
Qed.

Lemma visits_of_update_ne (n : Z) (k c : string) (t : list Row) :
  k <> c -> visits_of c (update_visits n k t) = visits_of c t.
Proof.
  intros Hne. unfold visits_of. rewrite find_bump.
  destruct (List.find (has_short c) t) as [r|] eqn:Hf; simpl; [|reflexivity].
  apply find_some in Hf as [_ Hr]. unfold bump, has_short in *.
  apply bool_decide_eq_true_1 in Hr.
  rewrite bool_decide_eq_false_2 by congruence. reflexivity.
Qed.

Lemma frame_update (n : Z) (k : string) (t : list Row) :
  map frame (update_visits n k t) = map frame t.
Proof.
  unfold update_visits. rewrite map_map. apply map_ext.
  intros r. unfold bump. destruct (has_short k r); reflexivity.
Qed.

(** ** writeCacheToDB *)

Lemma flush_journal (E : Env) (order : list string) (w : World) :
  journal w `prefix_of` journal (MainGo.writeCacheToDB E order w).
Proof.
  revert w. induction order as [|k rest IH]; intros w; simpl; [reflexivity|].
  destruct (visitCountCache w !! k) as [count|]; [|apply IH].
  unfold execUpdate, issue.
  destruct (faulty E (length (journal w)) (UpdateVisits count k)); cbn [negb].
  - etrans; [|apply IH]. simpl. apply prefix_app_r. reflexivity.
  - etrans; [|apply IH]. simpl. apply prefix_app_r. reflexivity.
Qed.

(** A key that the range does not visit keeps its count and its row. *)
Lemma flush_untouched (E : Env) (order : list string) (w : World) (c : string) :
  c ∉ order ->
  visitCountCache (MainGo.writeCacheToDB E order w) !! c = visitCountCache w !! c /\
  visits_of c (url_mapping (MainGo.writeCacheToDB E order w))
  = visits_of c (url_mapping w).
Proof.
  revert w. induction order as [|k rest IH]; intros w Hc; simpl; [auto|].
  apply not_elem_of_cons in Hc as [Hne Hc].
  destruct (visitCountCache w !! k) as [count|]; [|apply IH, Hc].
  unfold execUpdate, issue.
  destruct (faulty E (length (journal w)) (UpdateVisits count k)); cbn [negb].
  - match goal with |- context [MainGo.writeCacheToDB E rest ?w1] =>
      destruct (IH w1 Hc) as [-> ->] end.
    split; reflexivity.
  - match goal with |- context [MainGo.writeCacheToDB E rest ?w1] =>
      destruct (IH w1 Hc) as [-> ->] end.
    simpl. rewrite lookup_insert_ne by congruence.
    rewrite visits_of_update_ne by congruence. split; reflexivity.
Qed.

(** Every entry of the cache has its UPDATE issued during the flush,
    whatever happens to the other entries; the entry is stored as 0 when
    the UPDATE went through and is left alone when it hit an error. *)
Lemma flush_entry (E : Env) (order : list string) (w : World) (c : string) (v : Z) :
  NoDup order -> c ∈ order -> visitCountCache w !! c = Some v ->
  let w' := MainGo.writeCacheToDB E order w in
  exists i,
    length (journal w) <= i /\
    journal w' !! i = Some (UpdateVisits v c, negb (faulty E i (UpdateVisits v c))) /\
    visitCountCache w' !! c
    = Some (if faulty E i (UpdateVisits v c) then v else 0%Z) /\
    visits_of c (url_mapping w')
    = (fun x => (x + (if faulty E i (UpdateVisits v c) then 0 else v))%Z)
        <$> visits_of c (url_mapping w).
Proof.
  intros Hnd. revert w. induction Hnd as [|k rest Hk Hnd IH]; intros w Hin Hv.
  { inversion Hin. }
  simpl. destruct (decide (k = c)) as [->|Hne].
  - rewrite Hv. exists (length (journal w)).
    unfold execUpdate, issue.
    destruct (faulty E (length (journal w)) (UpdateVisits v c)); cbn [negb].
    + match goal with |- context [MainGo.writeCacheToDB E rest ?w1] =>
        destruct (flush_untouched E rest w1 c Hk) as [-> ->];
        pose proof (flush_journal E rest w1) as Hpre end.
      simpl in *. repeat split; auto.
      * eapply prefix_lookup_Some; [|exact Hpre].
        rewrite lookup_app_r, Nat.sub_diag by lia. reflexivity.
      * destruct (visits_of c (url_mapping w)); simpl; f_equal; lia.
    + match goal with |- context [MainGo.writeCacheToDB E rest ?w1] =>
        destruct (flush_untouched E rest w1 c Hk) as [-> ->];
        pose proof (flush_journal E rest w1) as Hpre end.
      simpl in *. rewrite lookup_insert_eq. repeat split; auto.
      * eapply prefix_lookup_Some; [|exact Hpre].
        rewrite lookup_app_r, Nat.sub_diag by lia. reflexivity.
      * apply visits_of_update.
  - apply elem_of_cons in Hin as [?|Hin]; [congruence|].
    destruct (visitCountCache w !! k) as [count|]; [|apply IH; assumption].
    unfold execUpdate, issue.
    destruct (faulty E (length (journal w)) (UpdateVisits count k)); cbn [negb].
    + match goal with |- context [MainGo.writeCacheToDB E rest ?w1] =>
        destruct (IH w1 Hin Hv) as (i & Hi & Hj & Hc & Hr) end.
      simpl in *. rewrite length_app in Hi. exists i. repeat split; auto. lia.
    + match goal with |- context [MainGo.writeCacheToDB E rest ?w1] =>
        destruct (IH w1 Hin) as (i & Hi & Hj & Hc & Hr) end.
      { simpl. rewrite lookup_insert_ne by congruence. exact Hv. }
      simpl in *. rewrite length_app in Hi.
      rewrite visits_of_update_ne in Hr by congruence.
      exists i. repeat split; auto. lia.
Qed.

(** One statement per entry: the range never stops early. *)
Lemma flush_journal_length (E : Env) (order : list string) (w : World) :
  NoDup order ->
  (forall k, k ∈ order -> is_Some (visitCountCache w !! k)) ->
  length (journal (MainGo.writeCacheToDB E order w))
  = length (journal w) + length order.
Proof.
  intros Hnd. revert w. induction Hnd as [|k rest Hk Hnd IH]; intros w Hin; simpl.
  { lia. }
  destruct (Hin k) as [count Hc]; [left|]. rewrite Hc.
  unfold execUpdate, issue.
  destruct (faulty E (length (journal w)) (UpdateVisits count k)); cbn [negb];
    rewrite IH; simpl; try (rewrite length_app; simpl; lia).
  - intros k' Hk'. apply Hin. right. exact Hk'.
  - intros k' Hk'. rewrite lookup_insert_ne by (intros ->; contradiction).
    apply Hin. right. exact Hk'.
Qed.

Lemma flush_dom (E : Env) (order : list string) (w : World) :
  dom (visitCountCache (MainGo.writeCacheToDB E order w)) = dom (visitCountCache w).
Proof.
  revert w. induction order as [|k rest IH]; intros w; simpl; [reflexivity|].
  destruct (visitCountCache w !! k) as [count|] eqn:Hk; [|apply IH].
  unfold execUpdate, issue.
  destruct (faulty E (length (journal w)) (UpdateVisits count k)); cbn [negb];
    rewrite IH; simpl; [reflexivity|].
  rewrite dom_insert_L. apply subseteq_union_1_L, singleton_subseteq_l.
  eapply elem_of_dom_2, Hk.
Qed.

Lemma flush_frame (E : Env) (order : list string) (w : World) :
  map frame (url_mapping (MainGo.writeCacheToDB E order w))
  = map frame (url_mapping w).
Proof.
  revert w. induction order as [|k rest IH]; intros w; simpl; [reflexivity|].
  destruct (visitCountCache w !! k) as [count|]; [|apply IH].
  unfold execUpdate, issue.
  destruct (faulty E (length (journal w)) (UpdateVisits count k)); cbn [negb];
    rewrite IH; simpl; [reflexivity|apply frame_update].
Qed.

(** Orders of a range, built along with the map. *)
Lemma range_order_empty : range_order [] (∅ : gmap string Z).
Proof.
  split; [constructor|]. intros k. rewrite elem_of_nil, lookup_empty.
  split; [intros [] | intros [? ?]; discriminate].
Qed.

Lemma range_order_insert (k : string) (v : Z) (order : list string) (m : gmap string Z) :
  k ∉ order -> range_order order m -> range_order (k :: order) (<[k := v]> m).
Proof.
  intros Hk [Hnd Hdom]. split; [constructor; assumption|].
  intros k'. rewrite elem_of_cons, lookup_insert_is_Some, Hdom.
  destruct (decide (k = k')) as [->|Hne]; [tauto|].
  split; [intros [?|?]; [congruence | auto] | intros [?|[_ ?]]; auto].
Qed.

(** C5.  During a flush every entry of the cache has its UPDATE issued,
    one statement per entry, whether or not the UPDATE of another entry
    hit a storage error.  An entry whose UPDATE hit an error keeps its
    pending count, so that the next flush tries it again; an entry whose
    UPDATE went through is stored as 0. *)
Theorem writeCacheToDB_errors_are_per_entry (E : Env) (order : list string)
    (w : World) (c : string) (v : Z) :
  range_order order (visitCountCache w) ->
  visitCountCache w !! c = Some v ->
  let w' := MainGo.writeCacheToDB E order w in
  length (journal w') = length (journal w) + length order /\
  exists i,
    length (journal w) <= i < length (journal w') /\
    journal w' !! i = Some (UpdateVisits v c, negb (faulty E i (UpdateVisits v c))) /\
    visitCountCache w' !! c = Some (if faulty E i (UpdateVisits v c) then v else 0%Z).
Proof.
  intros [Hnd Hdom] Hv w'. split.
  - apply flush_journal_length; [exact Hnd|]. intros k Hk. apply Hdom, Hk.
  - destruct (flush_entry E order w c v Hnd) as (i & Hi & Hj & Hc & _).
    { apply Hdom. eauto. }
    { exact Hv. }
    exists i. repeat split; auto.
    eapply lookup_lt_Some, Hj.
Qed.

Lemma writeCacheToDB_errors_are_per_entry_witness :
  range_order ["abc1"; "def2"] (visitCountCache busy_world) /\
  visitCountCache busy_world !! "abc1" = Some 5%Z /\
  let w' := MainGo.writeCacheToDB flaky_env ["abc1"; "def2"] busy_world in
  length (journal w') = length (journal busy_world) + 2 /\
  exists i,
    length (journal busy_world) <= i < length (journal w') /\
    journal w' !! i
    = Some (UpdateVisits 5 "abc1", negb (faulty flaky_env i (UpdateVisits 5 "abc1"))) /\
    visitCountCache w' !! "abc1"
    = Some (if faulty flaky_env i (UpdateVisits 5 "abc1") then 5%Z else 0%Z).
Proof.
  assert (Hord : range_order ["abc1"; "def2"] (visitCountCache busy_world)).
  { apply range_order_insert; [|apply range_order_insert].
    - rewrite list_elem_of_singleton. discriminate.
    - apply not_elem_of_nil.
    - apply range_order_empty. }
  split; [exact Hord|]. split; [reflexivity|].
  apply (writeCacheToDB_errors_are_per_entry flaky_env _ busy_world "abc1" 5 Hord).
  reflexivity.
Defined.

(** The same flush computed: the UPDATE of [abc1] is refused, [def2] is
    flushed all the same, [abc1] keeps its 5 pending visits. *)
Example flush_with_a_failing_entry :
  let w' := MainGo.writeCacheToDB flaky_env ["abc1"; "def2"] busy_world in
  journal w' = [(UpdateVisits 5 "abc1", false); (UpdateVisits 3 "def2", true)] /\
  visitCountCache w' !! "abc1" = Some 5%Z /\
  visitCountCache w' !! "def2" = Some 0%Z /\
  visits_of "abc1" (url_mapping w') = Some 0%Z /\
  visits_of "def2" (url_mapping w') = Some 3%Z.
Proof. vm_compute. repeat split; reflexivity. Qed.

(** C2.  [writeCacheToDB] has no test of the count: on the cache
    [{"abc1": 5, "def2": 0}] it issues two UPDATEs, one of them adding 0 to
    [def2], in whichever order the range walks the map. *)
Theorem writeCacheToDB_updates_zero_entry :
  issued_since tally_world (MainGo.writeCacheToDB demo_env ["abc1"; "def2"] tally_world)
  = [(UpdateVisits 5 "abc1", true); (UpdateVisits 0 "def2", true)] /\
  issued_since tally_world (MainGo.writeCacheToDB demo_env ["def2"; "abc1"] tally_world)
  = [(UpdateVisits 0 "def2", true); (UpdateVisits 5 "abc1", true)].
Proof. split; vm_compute; reflexivity. Qed.

(** In general an entry with nothing pending has its UPDATE issued like
    any other. *)
Lemma flush_issues_zero_update (E : Env) (order : list string) (w : World) (c : string) :
  range_order order (visitCountCache w) ->
  visitCountCache w !! c = Some 0%Z ->
  exists i ok, length (journal w) <= i /\
    journal (MainGo.writeCacheToDB E order w) !! i = Some (UpdateVisits 0 c, ok).
Proof.
  intros [Hnd Hdom] Hv.
  destruct (flush_entry E order w c 0 Hnd) as (i & Hi & Hj & _).
  { apply Hdom. eauto. }
  { exact Hv. }
  eauto.
Qed.

(** ** handleRedirect and the pending count *)

Lemma substring_all (s : string) : String.substring 0 (String.length s) s = s.
Proof. induction s as [|a s IH]; simpl; [reflexivity | rewrite IH; reflexivity]. Qed.

Lemma prefix_app (p c : string) : String.prefix p (p +:+ c) = true.
Proof.
  induction p as [|a p IH].
  - destruct c; reflexivity.
  - change (String a p +:+ c) with (String a (p +:+ c)). cbn [String.prefix].
    destruct (ascii_dec a a); [exact IH | contradiction].
Qed.

Lemma substring_app (p c : string) :
  String.substring (String.length p)
    (String.length (p +:+ c) - String.length p) (p +:+ c) = c.
Proof.
  induction p as [|a p IH].
  - change ("" +:+ c) with c. cbn [String.length]. rewrite Nat.sub_0_r.
    apply substring_all.
  - change (String a p +:+ c) with (String a (p +:+ c)).
    cbn [String.length String.substring Nat.sub]. exact IH.
Qed.

Lemma TrimPrefix_app (p c : string) : TrimPrefix (p +:+ c) p = c.
Proof. unfold TrimPrefix. rewrite prefix_app. apply substring_app. Qed.

Lemma wrap_int_small (z : Z) :
  (min_int <= z <= max_int)%Z -> wrap_int z = z.
Proof.
  unfold min_int, max_int, wrap_int. intros H.
  rewrite Z.mod_small; lia.
Qed.

Lemma pending_record_visit (c : string) (w : World) :
  (0 <= pending w c < max_int)%Z ->
  pending (MainGo.record_visit c w) c = (pending w c + 1)%Z.
Proof.
  intros H. unfold MainGo.record_visit, pending at 1. simpl.
  rewrite lookup_insert_eq. simpl. apply wrap_int_small.
  unfold min_int, max_int in *. lia.
Qed.

Lemma handleRedirect_hit (E : Env) (c u : string) (w : World) :
  select_long_by_short c (url_mapping w) = Some u ->
  faulty E (length (journal w)) (SelectLongByShort c) = false ->
  MainGo.handleRedirect E ("/r/" +:+ c) w =
    (Redirect u,
     MainGo.record_visit c
       {| url_mapping := url_mapping w;
          journal := journal w ++ [(SelectLongByShort c, true)];
          visitCountCache := visitCountCache w; drawn := drawn w |}).
Proof.
  intros Hu Hf. unfold MainGo.handleRedirect. rewrite TrimPrefix_app.
  unfold getLongURL. rewrite (issue_ok _ _ _ Hf). simpl. rewrite Hu. reflexivity.
Qed.

Lemma visits_spec (E : Env) (n : nat) (c u : string) (w : World) :
  select_long_by_short c (url_mapping w) = Some u ->
  (forall i, faulty E i (SelectLongByShort c) = false) ->
  (0 <= pending w c)%Z ->
  (pending w c + Z.of_nat n <= max_int)%Z ->
  let w1 := visits E n ("/r/" +:+ c) w in
  url_mapping w1 = url_mapping w /\
  pending w1 c = (pending w c + Z.of_nat n)%Z /\
  (n = 0 -> w1 = w).
Proof.
  intros Hu Hf. revert w Hu. induction n as [|n IH]; intros w Hu Hlo Hhi.
  - simpl. repeat split; lia.
  - cbn [visits]. rewrite (handleRedirect_hit E c u w Hu (Hf _)). cbn [snd].
    match goal with |- context [MainGo.record_visit c ?w0] =>
      assert (Hp : pending (MainGo.record_visit c w0) c = (pending w c + 1)%Z)
        by (apply (pending_record_visit c w0); unfold pending in *; simpl; lia);
      destruct (IH (MainGo.record_visit c w0)) as (Ht & Hq & _);
        [exact Hu | lia | lia |] end.
    cbv zeta. rewrite Ht, Hq, Hp. repeat split; [lia | discriminate].
Qed.

(** Whatever was pending for [c] before the redirects is flushed with
    them. *)
Lemma visits_flush_accumulate (E : Env) (c : string) (N : nat) (v : Z)
    (order : list string) (w : World) :
  visits_of c (url_mapping w) = Some v ->
  (0 <= pending w c)%Z ->
  (pending w c + Z.of_nat N <= max_int)%Z ->
  (forall i, faulty E i (SelectLongByShort c) = false) ->
  (forall i, faulty E i (UpdateVisits (pending w c + Z.of_nat N) c) = false) ->
  let w1 := visits E N ("/r/" +:+ c) w in
  range_order order (visitCountCache w1) ->
  let w2 := MainGo.writeCacheToDB E order w1 in
  visits_of c (url_mapping w2) = Some (v + (pending w c + Z.of_nat N))%Z /\
  pending w2 c = 0%Z.
Proof.
  intros Hv Hlo Hhi Hlook Hupd w1 [Hnd Hdom] w2.
  assert (Hu : exists u, select_long_by_short c (url_mapping w) = Some u).
  { unfold visits_of, select_long_by_short in *.
    destruct (List.find (has_short c) (url_mapping w)); [eauto | discriminate]. }
  destruct Hu as [u Hu].
  destruct (visits_spec E N c u w Hu Hlook Hlo Hhi) as (Ht & Hq & H0).
  fold w1 in Ht, Hq, H0.
  destruct (visitCountCache w1 !! c) as [q|] eqn:Hc.
  - assert (q = (pending w c + Z.of_nat N)%Z) as ->
      by (unfold pending in Hq at 1; rewrite Hc in Hq; exact Hq).
    destruct (flush_entry E order w1 c (pending w c + Z.of_nat N) Hnd)
      as (i & _ & _ & Hc2 & Hr).
    { apply Hdom. eauto. }
    { exact Hc. }
    fold w2 in Hc2, Hr. rewrite Hupd in Hc2, Hr. rewrite Ht, Hv in Hr.
    split; [exact Hr|]. unfold pending at 1. rewrite Hc2. reflexivity.
  - assert (Hz : (pending w c + Z.of_nat N = 0)%Z)
      by (unfold pending in Hq at 1; rewrite Hc in Hq; simpl in Hq; lia).
    destruct (flush_untouched E order w1 c) as [Hc2 Hr].
    { intros Hin. apply Hdom in Hin as [? ?]. congruence. }
    fold w2 in Hc2, Hr. rewrite Ht, Hv in Hr. rewrite Hz, Z.add_0_r.
    split; [exact Hr|]. unfold pending. rewrite Hc2, Hc. reflexivity.
Qed.

(** C4, as the code has it.  For a code [c] that has a row: after [N] redirects of
    [/r/c] and a flush whose UPDATE for [c] goes through, the persisted
    [visit_count] of [c] is the one before plus [N] plus the count that was
    pending for [c] before the redirects, and the pending count of [c] is
    0.  When nothing was pending, as after a flush that went through, the
    rise is exactly [N].  The cache holds Go [int]s and the store 64-bit
    INTEGERs: the counts are taken within that range. *)
Theorem visits_then_flush (E : Env) (c : string) (N : nat) (v : Z)
    (order : list string) (w : World) :
  visits_of c (url_mapping w) = Some v ->
  (0 <= pending w c)%Z ->
  (pending w c + Z.of_nat N <= max_int)%Z ->
  in_int64 v ->
  in_int64 (v + (pending w c + Z.of_nat N)) ->
  (forall i, faulty E i (SelectLongByShort c) = false) ->
  (forall i, faulty E i (UpdateVisits (pending w c + Z.of_nat N) c) = false) ->
  let w1 := visits E N ("/r/" +:+ c) w in
  range_order order (visitCountCache w1) ->
  let w2 := MainGo.writeCacheToDB E order w1 in
  visits_of c (url_mapping w2) = Some (v + (pending w c + Z.of_nat N))%Z /\
  pending w2 c = 0%Z /\
  (pending w c = 0%Z -> visits_of c (url_mapping w2) = Some (v + Z.of_nat N)%Z).
Proof.
  intros Hv Hlo Hhi _ _ Hlook Hupd w1 Hord w2.
  destruct (visits_flush_accumulate E c N v order w Hv Hlo Hhi Hlook Hupd Hord)
    as [Hrow Hzero].
  fold w1 w2 in Hrow, Hzero.
  split; [exact Hrow|]. split; [exact Hzero|].
  intros H0. rewrite Hrow, H0. reflexivity.
Qed.

Lemma range_orderb_true (order : list string) (m : gmap string Z) :
  range_orderb order m = true -> range_order order m.
Proof.
  unfold range_orderb. intros H. apply andb_prop in H as [Hnd Hdom].
  apply bool_decide_eq_true_1 in Hnd, Hdom. split; [exact Hnd|].
  intros k. rewrite <- elem_of_dom, <- Hdom, elem_of_list_to_set. reflexivity.
Qed.

Lemma visits_then_flush_witness :
  visits_of "abc1" (url_mapping after_failed_flush) = Some 0%Z /\
  pending after_failed_flush "abc1" = 3%Z /\
  in_int64 0 /\
  in_int64 (0 + (pending after_failed_flush "abc1" + Z.of_nat 2)) /\
  let w1 := visits hiccup_env 2 ("/r/" +:+ "abc1") after_failed_flush in
  range_order ["abc1"] (visitCountCache w1) /\
  let w2 := MainGo.writeCacheToDB hiccup_env ["abc1"] w1 in
  visits_of "abc1" (url_mapping w2)
  = Some (0 + (pending after_failed_flush "abc1" + Z.of_nat 2))%Z /\
  pending w2 "abc1" = 0%Z.
Proof.
  assert (Hord : range_order ["abc1"]
                   (visitCountCache
                      (visits hiccup_env 2 ("/r/" +:+ "abc1") after_failed_flush))).
  { apply range_orderb_true. vm_compute. reflexivity. }
  assert (Hr1 : in_int64 0) by (split; vm_compute; discriminate).
  assert (Hr2 : in_int64 (0 + (pending after_failed_flush "abc1" + Z.of_nat 2)))
    by (split; vm_compute; discriminate).
  split; [reflexivity|]. split; [reflexivity|].
  split; [exact Hr1|]. split; [exact Hr2|].
  split; [exact Hord|].
  destruct (visits_then_flush hiccup_env "abc1" 2 0 ["abc1"] after_failed_flush)
    as (Hrow & Hzero & _).
  - reflexivity.
  - vm_compute. discriminate.
  - vm_compute. discriminate.
  - exact Hr1.
  - exact Hr2.
  - intros i. reflexivity.
  - intros i. reflexivity.
  - exact Hord.
  - split; [exact Hrow | exact Hzero].
Defined.

(** C4, as claimed, fails on the code.  Three redirects of [/r/abc1] are
    followed by a flush whose UPDATE hits a storage error: the row stays at
    0 and 3 visits stay pending.  Then [N = 2] redirects and a flush whose
    UPDATE goes through: the statement adds 5, and [visit_count] rises by
    5, not by 2. *)
Lemma visits_after_failed_flush :
  journal after_failed_flush
  = [(SelectLongByShort "abc1", true); (SelectLongByShort "abc1", true);
     (SelectLongByShort "abc1", true); (UpdateVisits 3 "abc1", false)] /\
  visits_of "abc1" (url_mapping after_failed_flush) = Some 0%Z /\
  pending after_failed_flush "abc1" = 3%Z /\
  let w2 := MainGo.writeCacheToDB hiccup_env ["abc1"]
              (visits hiccup_env 2 "/r/abc1" after_failed_flush) in
  issued_since after_failed_flush w2
  = [(SelectLongByShort "abc1", true); (SelectLongByShort "abc1", true);
     (UpdateVisits 5 "abc1", true)] /\
  visits_of "abc1" (url_mapping w2) = Some 5%Z /\
  pending w2 "abc1" = 0%Z.
Proof. cbv zeta. repeat split; vm_compute; reflexivity. Qed.

(** ** Lookup after creation *)

Lemma find_app_none {A} (f : A -> bool) (l k : list A) :
  existsb f l = false -> List.find f (l ++ k) = List.find f k.
Proof.
  induction l as [|x l IH]; simpl; [reflexivity|].
  intros H. apply orb_false_elim in H as [-> H]. exact (IH H).
Qed.

Lemma key_unique (t : list Row) (r r' : Row) :
  NoDup (map short_url t) -> In r t -> In r' t ->
  short_url r = short_url r' -> r = r'.
Proof.
  induction t as [|x t IH]; simpl; intros Hnd Hr Hr' Heq; [contradiction|].
  apply NoDup_cons in Hnd as [Hx Hnd].
  assert (Hfresh : forall y, In y t -> short_url y <> short_url x).
  { intros y Hy Hk. apply Hx. rewrite <- Hk. apply list_elem_of_In.
    apply in_map. exact Hy. }
  destruct Hr as [->|Hr], Hr' as [->|Hr']; auto.
  - exfalso. eapply Hfresh; eauto.
  - exfalso. eapply Hfresh; eauto.
Qed.

Lemma lookup_minted (c u : string) (stamp : option Z) (t : list Row) :
  select_exists c t = false ->
  select_long_by_short c (t ++ [row c u 0 stamp]) = Some u.
Proof.
  intros Hfree. unfold select_long_by_short, select_exists in *.
  rewrite find_app_none by exact Hfree. simpl. unfold has_short. simpl.
  rewrite bool_decide_eq_true_2 by reflexivity. reflexivity.
Qed.

Lemma lookup_existing (c u : string) (t : list Row) :
  NoDup (map short_url t) ->
  select_short_by_long u t = Some c ->
  select_long_by_short c t = Some u.
Proof.
  intros Hnd Hc. unfold select_short_by_long, select_long_by_short in *.
  destruct (List.find (has_long u) t) as [r|] eqn:Hr; [|discriminate].
  simpl in Hc. injection Hc as <-.
  apply find_some in Hr as [Hin Hu]. apply bool_decide_eq_true_1 in Hu.
  destruct (List.find (has_short (short_url r)) t) as [r'|] eqn:Hr'.
  - apply find_some in Hr' as [Hin' Hk]. apply bool_decide_eq_true_1 in Hk.
    assert (r = r') as <- by (apply (key_unique t); congruence).
    simpl. f_equal. exact Hu.
  - eapply find_none in Hr'; [|exact Hin]. unfold has_short in Hr'.
    rewrite bool_decide_eq_true_2 in Hr' by reflexivity. discriminate.
Qed.

(** C7.  On a table whose [short_url]s are distinct (the primary key),
    when [createShortURL u] returns the code [c] without error, in the
    revision of [part_001] or in the one of [main.go], a [getLongURL c]
    that follows and hits no storage error returns [u]. *)
Theorem create_then_lookup (E : Env) (fuel : nat) (u c : string) (w w' : World) :
  NoDup (map short_url (url_mapping w)) ->
  Part001.createShortURL E fuel u w = (Some (Ok c), w') \/
  MainGo.createShortURL E fuel u w = (Some (Ok c), w') ->
  faulty E (length (journal w')) (SelectLongByShort c) = false ->
  fst (getLongURL E c w') = Ok u.
Proof.
  intros Hnd Hcreate Hf.
  assert (Hrow : select_long_by_short c (url_mapping w') = Some u).
  { destruct Hcreate as [Hcreate|Hcreate].
    - unfold Part001.createShortURL, issue in Hcreate.
      destruct (negb _); [|discriminate]. cbn [url_mapping] in Hcreate.
      destruct (select_short_by_long u (url_mapping w)) as [c'|] eqn:Hc.
      + injection Hcreate as -> <-. simpl. apply lookup_existing; assumption.
      + apply mint_Ok_inv in Hcreate as (_ & _ & Hfree & stamp & -> & _).
        simpl in *. apply lookup_minted. exact Hfree.
    - apply mint_Ok_inv in Hcreate as (_ & _ & Hfree & stamp & -> & _).
      apply lookup_minted. exact Hfree. }
  unfold getLongURL. rewrite (issue_ok _ _ _ Hf). simpl. rewrite Hrow. reflexivity.
Qed.

Lemma create_then_lookup_witness :
  NoDup (map short_url (url_mapping empty_world)) /\
  fst (getLongURL demo_env "123a"
         (snd (Part001.createShortURL demo_env 1 example_com empty_world)))
  = Ok example_com.
Proof.
  split; [constructor|].
  apply (create_then_lookup demo_env 1 example_com "123a" empty_world).
  - constructor.
  - left. reflexivity.
  - reflexivity.
Defined.

(** ** What each function leaves alone *)

Lemma randomString_world (E : Env) (len : Z) (w : World) :
  let w1 := snd (randomString E len w) in
  url_mapping w1 = url_mapping w /\ journal w1 = journal w /\
  visitCountCache w1 = visitCountCache w.
Proof.
  unfold randomString. destruct (len <? 0)%Z; simpl; auto.
Qed.

Lemma shortURLExists_world (E : Env) (c : string) (w : World) :
  let w1 := snd (shortURLExists E c w) in
  url_mapping w1 = url_mapping w /\ visitCountCache w1 = visitCountCache w.
Proof.
  unfold shortURLExists, issue. destruct (negb _); simpl; auto.
Qed.

Lemma getLongURL_world (E : Env) (c : string) (w : World) :
  let w1 := snd (getLongURL E c w) in
  url_mapping w1 = url_mapping w /\ visitCountCache w1 = visitCountCache w.
Proof.
  unfold getLongURL, issue. destruct (negb _); simpl; auto.
  destruct (select_long_by_short c (url_mapping w)); simpl; auto.
Qed.

Lemma execInsert_world (E : Env) (c u : string) (st : bool) (w : World) :
  let w1 := snd (execInsert E c u st w) in
  visitCountCache w1 = visitCountCache w /\
  (url_mapping w1 = url_mapping w \/
   url_mapping w1
   = url_mapping w
     ++ [row c u 0 (if st then Some (clock E (length (journal w))) else None)] /\
   journal w1 !! length (journal w) = Some (InsertMapping c u st, true)).
Proof.
  unfold execInsert, issue, insert_mapping.
  destruct (negb _); simpl; auto.
  destruct (select_exists c (url_mapping w)); simpl; auto.
  split; [reflexivity|]. right. split; [reflexivity|].
  rewrite lookup_app_r, Nat.sub_diag by lia. reflexivity.
Qed.

Lemma execUpdate_world (E : Env) (n : Z) (c : string) (w : World) :
  let w1 := snd (execUpdate E n c w) in
  visitCountCache w1 = visitCountCache w /\
  map frame (url_mapping w1) = map frame (url_mapping w).
Proof.
  unfold execUpdate, issue. destruct (negb _); simpl; auto using frame_update.
Qed.

(** The minting loop appends at most one row, stamped with the clock of
    its INSERT when the statement carries [datetime('now')], and never
    touches the cache. *)
Lemma mint_world (E : Env) (len : Z) (st : bool) (fuel : nat) (u : string) (w : World) :
  let w' := snd (mint E len st fuel u w) in
  visitCountCache w' = visitCountCache w /\
  (url_mapping w' = url_mapping w \/
   exists c i,
     url_mapping w'
     = url_mapping w ++ [row c u 0 (if st then Some (clock E i) else None)] /\
     journal w' !! i = Some (InsertMapping c u st, true)).
Proof.
  revert w. induction fuel as [|fuel IH]; intros w; simpl; [auto|].
  pose proof (randomString_world E len w) as (Ht1 & _ & Hc1).
  destruct (randomString E len w) as [[s| |] w1]; simpl in *; auto.
  pose proof (shortURLExists_world E s w1) as (Ht2 & Hc2).
  destruct (shortURLExists E s w1) as [[[|]| |] w2]; simpl in *;
    try (rewrite Ht2, Ht1, Hc2, Hc1; auto; fail).
  - destruct (IH w2) as (Hc3 & Ht3). rewrite Hc3, Hc2, Hc1.
    split; [reflexivity|]. rewrite Ht2, Ht1 in Ht3. exact Ht3.
  - pose proof (execInsert_world E s u st w2) as (Hc3 & Ht3).
    assert (Hgoal :
      visitCountCache (snd (execInsert E s u st w2)) = visitCountCache w /\
      (url_mapping (snd (execInsert E s u st w2)) = url_mapping w \/
       exists c i,
         url_mapping (snd (execInsert E s u st w2))
         = url_mapping w ++ [row c u 0 (if st then Some (clock E i) else None)] /\
         journal (snd (execInsert E s u st w2)) !! i = Some (InsertMapping c u st, true))).
    { rewrite Hc3, Hc2, Hc1. split; [reflexivity|].
      rewrite Ht2, Ht1 in Ht3. destruct Ht3 as [?|[? ?]]; eauto. }
    destruct (execInsert E s u st w2) as [[x| |] w3]; exact Hgoal.
Qed.

Lemma createShortURL_world (E : Env) (fuel : nat) (u : string) (w : World) :
  let w' := snd (Part001.createShortURL E fuel u w) in
  visitCountCache w' = visitCountCache w /\
  (url_mapping w' = url_mapping w \/
   exists c i,
     url_mapping w' = url_mapping w ++ [row c u 0 (Some (clock E i))] /\
     journal w' !! i = Some (InsertMapping c u true, true)).
Proof.
  unfold Part001.createShortURL, issue.
  destruct (negb _); cbn [url_mapping]; [|simpl; auto].
  destruct (select_short_by_long u (url_mapping w)); [simpl; auto|].
  match goal with |- context [mint E ?l ?st fuel u ?w1] =>
    apply (mint_world E l st fuel u w1) end.
Qed.

Lemma MainGo_handleRedirect_world (E : Env) (path : string) (w : World) :
  let w' := snd (MainGo.handleRedirect E path w) in
  url_mapping w' = url_mapping w /\
  (visitCountCache w' = visitCountCache w \/
   dom (visitCountCache w') = {[TrimPrefix path "/r/"]} ∪ dom (visitCountCache w)).
Proof.
  unfold MainGo.handleRedirect.
  pose proof (getLongURL_world E (TrimPrefix path "/r/") w) as (Ht & Hc).
  destruct (getLongURL E (TrimPrefix path "/r/") w) as [[u| |] w1]; simpl in *; auto.
  split; [exact Ht|]. right. rewrite dom_insert_L, Hc. reflexivity.
Qed.

Lemma Part001_handleRedirect_world (E : Env) (path : string) (w : World) :
  let w' := snd (Part001.handleRedirect E path w) in
  visitCountCache w' = visitCountCache w /\
  map frame (url_mapping w') = map frame (url_mapping w).
Proof.
  unfold Part001.handleRedirect.
  destruct (bool_decide (TrimPrefix path "/r/" = EmptyString)); [simpl; auto|].
  pose proof (getLongURL_world E (TrimPrefix path "/r/") w) as (Ht & Hc).
  destruct (getLongURL E (TrimPrefix path "/r/") w) as [[u| |] w1]; simpl in *;
    try (rewrite Ht, Hc; auto; fail).
  destruct (bool_decide (u = EmptyString)); simpl; [rewrite Ht, Hc; auto|].
  destruct (execUpdate_world E 1 (TrimPrefix path "/r/") w1) as (-> & ->).
  rewrite Ht, Hc. auto.
Qed.

(** ** Rows over the life of the process *)

Lemma step_rows (E : Env) (req : Request) (w : World) :
  let w' := step E req w in
  match req with
  | Create u _ =>
      url_mapping w' = url_mapping w \/
      exists c i,
        url_mapping w' = url_mapping w ++ [row c u 0 (Some (clock E i))] /\
        journal w' !! i = Some (InsertMapping c u true, true)
  | Lookup _ | Visit _ => url_mapping w' = url_mapping w
  | VisitDirect _ | Tick _ =>
      map frame (url_mapping w') = map frame (url_mapping w)
  end.
Proof.
  destruct req as [u fuel|c|path|path|order]; simpl.
  - apply createShortURL_world.
  - apply getLongURL_world.
  - apply MainGo_handleRedirect_world.
  - apply Part001_handleRedirect_world.
  - apply flush_frame.
Qed.

Lemma issue_journal (E : Env) (s : Stmt) (w : World) :
  journal w `prefix_of` journal (snd (issue E s w)).
Proof. unfold issue. simpl. apply prefix_app_r. reflexivity. Qed.

Lemma shortURLExists_journal (E : Env) (c : string) (w : World) :
  journal w `prefix_of` journal (snd (shortURLExists E c w)).
Proof.
  unfold shortURLExists, issue. destruct (negb _); simpl;
    apply prefix_app_r; reflexivity.
Qed.

Lemma getLongURL_journal (E : Env) (c : string) (w : World) :
  journal w `prefix_of` journal (snd (getLongURL E c w)).
Proof.
  unfold getLongURL, issue. destruct (negb _); simpl;
    [destruct (select_long_by_short c (url_mapping w)); simpl|];
    apply prefix_app_r; reflexivity.
Qed.

Lemma execInsert_journal (E : Env) (c u : string) (st : bool) (w : World) :
  journal w `prefix_of` journal (snd (execInsert E c u st w)).
Proof.
  unfold execInsert, issue, insert_mapping. destruct (negb _); simpl;
    [destruct (select_exists c (url_mapping w)); simpl|];
    apply prefix_app_r; reflexivity.
Qed.

Lemma execUpdate_journal (E : Env) (n : Z) (c : string) (w : World) :
  journal w `prefix_of` journal (snd (execUpdate E n c w)).
Proof.
  unfold execUpdate, issue. destruct (negb _); simpl;
    apply prefix_app_r; reflexivity.
Qed.

Lemma mint_journal (E : Env) (len : Z) (st : bool) (fuel : nat) (u : string)
    (w : World) :
  journal w `prefix_of` journal (snd (mint E len st fuel u w)).
Proof.
  revert w. induction fuel as [|fuel IH]; intros w; simpl; [reflexivity|].
  pose proof (randomString_world E len w) as (_ & Hj1 & _).
  destruct (randomString E len w) as [[s| |] w1]; simpl in *;
    try (rewrite Hj1; reflexivity).
  pose proof (shortURLExists_journal E s w1) as Hj2. rewrite Hj1 in Hj2.
  destruct (shortURLExists E s w1) as [[[|]| |] w2]; simpl in *; try exact Hj2.
  - etrans; [exact Hj2 | apply IH].
  - pose proof (execInsert_journal E s u st w2) as Hj3.
    destruct (execInsert E s u st w2) as [[x| |] w3]; simpl in *;
      (etrans; [exact Hj2 | exact Hj3]).
Qed.

(** No request takes a statement out of the journal. *)
Lemma step_journal (E : Env) (req : Request) (w : World) :
  journal w `prefix_of` journal (step E req w).
Proof.
  destruct req as [u fuel|c|path|path|order]; simpl.
  - unfold Part001.createShortURL.
    pose proof (issue_journal E (SelectShortByLong u) w) as Hj.
    destruct (issue E (SelectShortByLong u) w) as [[|] w1]; simpl in *; [|exact Hj].
    destruct (select_short_by_long u (url_mapping w1)); simpl; [exact Hj|].
    etrans; [exact Hj | apply mint_journal].
  - apply getLongURL_journal.
  - unfold MainGo.handleRedirect.
    pose proof (getLongURL_journal E (TrimPrefix path "/r/") w) as Hj.
    destruct (getLongURL E (TrimPrefix path "/r/") w) as [[u| |] w1]; exact Hj.
  - unfold Part001.handleRedirect.
    destruct (bool_decide (TrimPrefix path "/r/" = EmptyString)); [reflexivity|].
    pose proof (getLongURL_journal E (TrimPrefix path "/r/") w) as Hj.
    destruct (getLongURL E (TrimPrefix path "/r/") w) as [[u| |] w1]; simpl in *;
      try exact Hj.
    destruct (bool_decide (u = EmptyString)); simpl; [exact Hj|].
    etrans; [exact Hj | apply execUpdate_journal].
  - apply flush_journal.
Qed.

Lemma run_journal (E : Env) (reqs : list Request) (w : World) :
  journal w `prefix_of` journal (run E reqs w).
Proof.
  revert w. induction reqs as [|req reqs IH]; intros w; [reflexivity|].
  change (run E (req :: reqs) w) with (run E reqs (step E req w)).
  etrans; [apply step_journal | apply IH].
Qed.

Lemma stamped_prefix (E : Env) (j j' : list (Stmt * bool)) (r : Row) :
  j `prefix_of` j' -> stamped E j r -> stamped E j' r.
Proof.
  intros Hp (i & Ht & Hi). exists i. split; [exact Ht|].
  eapply prefix_lookup_Some; eassumption.
Qed.

Lemma step_frames (E : Env) (req : Request) (w : World) :
  exists new,
    map frame (url_mapping (step E req w))
    = map frame (url_mapping w) ++ map frame new /\
    Forall (stamped E (journal (step E req w))) new.
Proof.
  pose proof (step_rows E req w) as H.
  destruct req as [u fuel|c|path|path|order]; cbv zeta in H.
  - destruct H as [H|(c & i & H & Hi)].
    + exists []. rewrite H, app_nil_r. split; [reflexivity | constructor].
    + exists [row c u 0 (Some (clock E i))]. rewrite H, map_app.
      split; [reflexivity|].
      repeat constructor. exists i. split; [reflexivity | exact Hi].
  - exists []. rewrite H, app_nil_r. split; [reflexivity | constructor].
  - exists []. rewrite H, app_nil_r. split; [reflexivity | constructor].
  - exists []. rewrite H, app_nil_r. split; [reflexivity | constructor].
  - exists []. rewrite H, app_nil_r. split; [reflexivity | constructor].
Qed.

Lemma run_frames (E : Env) (reqs : list Request) (w : World) :
  exists new,
    map frame (url_mapping (run E reqs w))
    = map frame (url_mapping w) ++ map frame new /\
    Forall (stamped E (journal (run E reqs w))) new.
Proof.
  revert w. induction reqs as [|req reqs IH]; intros w.
  - exists []. simpl. rewrite app_nil_r. split; [reflexivity | constructor].
  - destruct (step_frames E req w) as (new1 & H1 & F1).
    destruct (IH (step E req w)) as (new2 & H2 & F2).
    change (run E (req :: reqs) w) with (run E reqs (step E req w)).
    exists (new1 ++ new2). split.
    + rewrite H2, H1, map_app, app_assoc. reflexivity.
    + apply Forall_app. split; [|exact F2].
      eapply Forall_impl; [exact F1|]. intros r Hr.
      eapply stamped_prefix; [apply run_journal | exact Hr].
Qed.

Lemma startup_rows (columnExists : bool) (now : Z) (t : list Row) :
  map short_url (Part001.startup columnExists now t) = map short_url t /\
  map long_url (Part001.startup columnExists now t) = map long_url t /\
  map visit_count (Part001.startup columnExists now t) = map visit_count t /\
  map created_at (Part001.startup columnExists now t)
  = map (fun r => if columnExists then created_at r
                  else Some (default now (created_at r))) t.
Proof.
  unfold Part001.startup, Part001.migrate. destruct columnExists.
  - repeat split; reflexivity.
  - rewrite !map_map. repeat split; apply map_ext; intros r;
      unfold Part001.stamp_null; destruct (created_at r) eqn:Hc; cbn;
      rewrite ?Hc; reflexivity.
Qed.

(** C6, as the code has it.  A row that [createShortURL] of [part_001] inserts gets
    its [created_at] from the INSERT, the time of the store at that
    statement, and no request changes a [created_at]: a lookup and a
    redirect through the cache leave the table as it is, a redirect that
    updates the store and a flush change at most [visit_count], and a
    creation only appends.  So over any sequence of requests the rows that
    were there keep their [short_url], [long_url] and [created_at], in
    place, and every row that was added carries the time of the store at
    its own INSERT.  A row that [createShortURL] of [main.go] inserts has
    no [created_at].  The start-up of [part_001] keeps every row and every
    [created_at] that is set; only on a table that lacks the column does it
    give the rows, which have none, the time of the start-up. *)
Theorem created_at_set_at_insert (E : Env) (req : Request) (reqs : list Request)
    (w : World) :
  (let w' := step E req w in
   match req with
   | Create u _ =>
       url_mapping w' = url_mapping w \/
       exists c i,
         url_mapping w' = url_mapping w ++ [row c u 0 (Some (clock E i))] /\
         journal w' !! i = Some (InsertMapping c u true, true)
   | Lookup _ | Visit _ => url_mapping w' = url_mapping w
   | VisitDirect _ | Tick _ =>
       map frame (url_mapping w') = map frame (url_mapping w)
   end) /\
  (exists new,
     map frame (url_mapping (run E reqs w))
     = map frame (url_mapping w) ++ map frame new /\
     Forall (stamped E (journal (run E reqs w))) new) /\
  (forall (fuel : nat) (u : string),
     let w' := snd (MainGo.createShortURL E fuel u w) in
     url_mapping w' = url_mapping w \/
     exists c i,
       url_mapping w' = url_mapping w ++ [row c u 0 None] /\
       journal w' !! i = Some (InsertMapping c u false, true)) /\
  (forall (columnExists : bool) (now : Z) (t : list Row),
     map short_url (Part001.startup columnExists now t) = map short_url t /\
     map long_url (Part001.startup columnExists now t) = map long_url t /\
     map visit_count (Part001.startup columnExists now t) = map visit_count t /\
     map created_at (Part001.startup columnExists now t)
     = map (fun r => if columnExists then created_at r
                     else Some (default now (created_at r))) t).
Proof.
  split; [apply step_rows|]. split; [apply run_frames|]. split.
  - intros fuel u. apply (mint_world E 8 false fuel u w).
  - intros columnExists now t. apply startup_rows.
Qed.

(** C6, as claimed, fails on the code.  The table of [main.go] has no
    [created_at] column and its INSERT names two columns: the row that
    [createShortURL] of [main.go] inserts has no [created_at].  When
    [part_001] starts on that table it adds the column and stamps the row
    with the time of the start-up, long after its INSERT. *)
Lemma created_at_set_after_insert :
  let w1 := snd (MainGo.createShortURL demo_env 1 example_com empty_world) in
  journal w1 = [(SelectExists "123abc12", true);
                (InsertMapping "123abc12" example_com false, true)] /\
  url_mapping w1 = [row "123abc12" example_com 0 None] /\
  Part001.startup false 1800000000 (url_mapping w1)
  = [row "123abc12" example_com 0 (Some 1800000000%Z)].
Proof. cbv zeta. repeat split; vm_compute; reflexivity. Qed.

(** The UPDATE of the start-up, when it runs, leaves a [created_at] that is
    set alone. *)
Lemma migrate_keeps_stamp (now : Z) (t : list Row) (i : nat) (r : Row) :
  t !! i = Some r -> is_Some (created_at r) ->
  Part001.migrate now t !! i = Some r.
Proof.
  intros Hr [x Hx]. unfold Part001.migrate.
  change (map (Part001.stamp_null now) t) with (Part001.stamp_null now <$> t).
  rewrite list_lookup_fmap, Hr. simpl. unfold Part001.stamp_null.
  rewrite Hx. reflexivity.
Qed.

(** ** The keys of the cache *)

Lemma step_dom (E : Env) (req : Request) (w : World) :
  dom (visitCountCache w) ⊆ dom (visitCountCache (step E req w)).
Proof.
  destruct req as [u fuel|c|path|path|order]; simpl.
  - destruct (createShortURL_world E fuel u w) as [-> _]. reflexivity.
  - destruct (getLongURL_world E c w) as [_ ->]. reflexivity.
  - destruct (MainGo_handleRedirect_world E path w) as [_ [->| ->]];
      [reflexivity | apply union_subseteq_r].
  - destruct (Part001_handleRedirect_world E path w) as [-> _]. reflexivity.
  - rewrite flush_dom. reflexivity.
Qed.

Lemma run_dom (E : Env) (reqs : list Request) (w : World) :
  dom (visitCountCache w) ⊆ dom (visitCountCache (run E reqs w)).
Proof.
  revert w. induction reqs as [|req reqs IH]; intros w; [reflexivity|].
  change (run E (req :: reqs) w) with (run E reqs (step E req w)).
  etrans; [apply step_dom | apply IH].
Qed.

(** C10.  Over any sequence of requests the set of keys of the cache only
    grows: the increment of a redirect adds its key, a flush keeps the set
    of keys as it is, and no function deletes a key; a key whose UPDATE
    goes through stays in the map with the count 0. *)
Theorem cache_keys_only_grow (E : Env) (reqs : list Request) (w : World) :
  dom (visitCountCache w) ⊆ dom (visitCountCache (run E reqs w)) /\
  (forall c, dom (visitCountCache (MainGo.record_visit c w))
             = {[c]} ∪ dom (visitCountCache w)) /\
  (forall order, dom (visitCountCache (MainGo.writeCacheToDB E order w))
                 = dom (visitCountCache w)) /\
  (forall order c,
     range_order order (visitCountCache w) ->
     c ∈ dom (visitCountCache w) ->
     (forall i v, faulty E i (UpdateVisits v c) = false) ->
     visitCountCache (MainGo.writeCacheToDB E order w) !! c = Some 0%Z).
Proof.
  split; [apply run_dom|]. split; [|split].
  - intros c. unfold MainGo.record_visit. simpl. apply dom_insert_L.
  - intros order. apply flush_dom.
  - intros order c [Hnd Hdom] Hc Hf.
    apply elem_of_dom in Hc as [v Hv].
    destruct (flush_entry E order w c v Hnd) as (i & _ & _ & Hc2 & _).
    { apply Hdom. eauto. }
    { exact Hv. }
    rewrite Hf in Hc2. exact Hc2.
Qed.

Lemma cache_keys_only_grow_witness :
  range_order ["abc1"; "def2"] (visitCountCache busy_world) /\
  "def2" ∈ dom (visitCountCache busy_world) /\
  visitCountCache (MainGo.writeCacheToDB demo_env ["abc1"; "def2"] busy_world) !! "def2"
  = Some 0%Z.
Proof.
  assert (Hord : range_order ["abc1"; "def2"] (visitCountCache busy_world)).
  { apply range_orderb_true. vm_compute. reflexivity. }
  assert (Hin : "def2" ∈ dom (visitCountCache busy_world)).
  { apply elem_of_dom. exists 3%Z. reflexivity. }
  split; [exact Hord|]. split; [exact Hin|].
  apply (cache_keys_only_grow demo_env [] busy_world); [exact Hord | exact Hin |].
  intros i v. reflexivity.
Defined.

(** ** The flush and the handlers, interleaved *)

(** Left to itself the flush goroutine computes [writeCacheToDB]. *)
Lemma flush_steps_reach (E : Env) (order : list string) (w : World) :
  exists n,
    interleave E (replicate n FlushStep) (start order w)
    = start [] (MainGo.writeCacheToDB E order w).
Proof.
  unfold start. revert w. induction order as [|k rest IH]; intros w.
  - exists 0. reflexivity.
  - simpl. destruct (visitCountCache w !! k) as [count|] eqn:Hk.
    + destruct (execUpdate E count k w) as [[x| |] w1] eqn:Hx.
      * destruct (IH (with_cache (<[k := 0%Z]> (visitCountCache w1)) w1)) as [n Hn].
        exists (S (S (S n))). unfold interleave in *. simpl. rewrite Hk. simpl.
        rewrite Hx. simpl. exact Hn.
      * destruct (IH w1) as [n Hn].
        exists (S (S n)). unfold interleave in *. simpl. rewrite Hk. simpl.
        rewrite Hx. exact Hn.
      * destruct (IH w1) as [n Hn].
        exists (S (S n)). unfold interleave in *. simpl. rewrite Hk. simpl.
        rewrite Hx. exact Hn.
    + destruct (IH w) as [n Hn]. exists (S n).
      unfold interleave in *. simpl. rewrite Hk. exact Hn.
Qed.

(** A handler that reads and stores with no step in between does
    [visitCountCache[shortURL]++]. *)
Lemma read_write_is_increment (E : Env) (h : nat) (c : string) (s : Machine) :
  shared (act E (VisitWrite h) (act E (VisitRead h c) s))
  = MainGo.record_visit c (shared s).
Proof. simpl. rewrite lookup_insert_eq. reflexivity. Qed.

Lemma completes_range (c : string) (a : Action) (s : Machine) :
  (0 <= completes c a s <= 1)%Z.
Proof.
  unfold completes. destruct a as [|h k|h]; try lia.
  destruct (handlers s !! h) as [[k x]|]; [|lia]. case_bool_decide; lia.
Qed.

Lemma count_visits_nonneg (E : Env) (c : string) (sched : list Action) (s : Machine) :
  (0 <= count_visits E c sched s)%Z.
Proof.
  revert s. induction sched as [|a rest IH]; intros s; simpl; [lia|].
  pose proof (completes_range c a s). pose proof (IH (act E a s)). lia.
Qed.

Lemma free_spec (c : string) (s : Machine) :
  free c s = true ->
  in_window (flusher s) c = false /\ forall h x, handlers s !! h <> Some (c, x).
Proof.
  unfold free. intros H. apply andb_prop in H as [Hw Hh].
  apply negb_true_iff in Hw. split; [exact Hw|]. intros h x Hx.
  rewrite forallb_forall in Hh.
  specialize (Hh (h, (c, x))). simpl in Hh.
  rewrite bool_decide_eq_true_2 in Hh by reflexivity.
  assert (Hin : In (h, (c, x)) (map_to_list (handlers s))).
  { apply list_elem_of_In, elem_of_map_to_list. exact Hx. }
  specialize (Hh Hin). discriminate.
Qed.

Lemma flush_settled (E : Env) (c : string) (s : Machine) (total : Z) :
  settled c total s ->
  (enters c FlushStep s = true -> free c s = true) ->
  settled c total (act E FlushStep s) /\
  (pending (shared (act E FlushStep s)) c <= pending (shared s) c)%Z.
Proof.
  destruct s as [pc hs w]. intros (p & Hp & Hlo & Hh & Hpc) Hent.
  cbn [flusher handlers shared] in *.
  assert (Hnone : in_window pc c = true -> forall h x, hs !! h <> Some (c, x)).
  { intros Hw h x Hx. destruct (Hh h x Hx) as (_ & Hf & _). congruence. }
  unfold settled. cbn [act flusher handlers shared].
  destruct pc as [[|k rest]|k count rest|k rest]; cbn [flush_step fst snd].
  - split; [|lia]. settle p; assumption.
  - destruct (decide (k = c)) as [->|Hne].
    + cbn [enters flusher] in Hent.
      rewrite bool_decide_eq_true_2 in Hent by reflexivity.
      destruct (free_spec _ _ (Hent eq_refl)) as [_ Hfree].
      cbn [handlers] in Hfree.
      destruct (visitCountCache w !! c) as [count|] eqn:Hk; cbn [fst snd];
        (split; [|lia]); settle p; try assumption; try (no_handler Hfree).
      split; [exact Hpc | intros _; first [reflexivity | exact Hk]].
    + cbn [in_window] in Hh.
      destruct (visitCountCache w !! k) as [count|] eqn:Hk; cbn [fst snd];
        (split; [|lia]); settle p; try assumption.
      * intros h x Hx. destruct (Hh h x Hx) as (H1 & H2 & H3).
        split; [exact H1|]. split; [|exact H3].
        cbn. apply bool_decide_eq_false_2. exact Hne.
      * split; [exact Hpc|]. intros ->. contradiction.
  - destruct Hpc as [Hsum Hcache]. unfold execUpdate, issue.
    destruct (decide (k = c)) as [->|Hne].
    + assert (Hno : forall h x, hs !! h <> Some (c, x)).
      { apply Hnone. cbn. apply bool_decide_eq_true_2. reflexivity. }
      unfold pending in Hsum. rewrite Hcache in Hsum by reflexivity. cbn in Hsum.
      destruct (faulty E (length (journal w)) (UpdateVisits count c));
        cbn [negb fst snd with_table url_mapping visitCountCache];
        (split; [|unfold pending; cbn; lia]).
      * settle p; try assumption; [no_handler Hno|].
        unfold pending. cbn. rewrite Hcache by reflexivity. exact Hsum.
      * settle (p + count)%Z; try assumption; try (no_handler Hno).
        -- cbn. rewrite visits_of_update, Hp. reflexivity.
        -- rewrite bool_decide_eq_true_2 by reflexivity. exact Hsum.
    + assert (Hwin : in_window (AtExec k count rest) c = false)
        by (cbn; apply bool_decide_eq_false_2; exact Hne).
      destruct (faulty E (length (journal w)) (UpdateVisits count k));
        cbn [negb fst snd with_table url_mapping visitCountCache];
        (split; [|unfold pending; cbn; lia]).
      * settle p; try assumption.
        intros h x Hx. destruct (Hh h x Hx) as (H1 & H2 & H3).
        split; [exact H1|]. split; [reflexivity | exact H3].
      * settle p; try assumption.
        -- cbn. rewrite visits_of_update_ne by exact Hne. exact Hp.
        -- rewrite bool_decide_eq_false_2 by exact Hne. exact Hsum.
  - destruct (decide (k = c)) as [->|Hne].
    + assert (Hno : forall h x, hs !! h <> Some (c, x)).
      { apply Hnone. cbn. apply bool_decide_eq_true_2. reflexivity. }
      rewrite bool_decide_eq_true_2 in Hpc by reflexivity.
      assert (Hz : pending (with_cache (<[c := 0%Z]> (visitCountCache w)) w) c = 0%Z).
      { unfold pending. cbn. rewrite lookup_insert_eq. reflexivity. }
      rewrite Hz. split; [|exact Hlo].
      settle p; try assumption; [lia | no_handler Hno | lia].
    + rewrite bool_decide_eq_false_2 in Hpc by exact Hne.
      assert (Hz : pending (with_cache (<[k := 0%Z]> (visitCountCache w)) w) c
                   = pending w c).
      { unfold pending. cbn. rewrite lookup_insert_ne by exact Hne. reflexivity. }
      rewrite Hz. split; [|lia].
      settle p; try assumption.
      intros h x Hx. destruct (Hh h x Hx) as (H1 & H2 & H3).
      split; [exact H1|]. split; [reflexivity | exact H3].
Qed.

Lemma read_settled (E : Env) (c : string) (s : Machine) (total : Z)
      (h : nat) (k : string) :
  settled c total s ->
  handlers s !! h = None ->
  (k = c -> free c s = true) ->
  settled c total (act E (VisitRead h k) s).
Proof.
  destruct s as [pc hs w]. intros (p & Hp & Hlo & Hh & Hpc) Hidle Hfree.
  cbn [flusher handlers shared] in *.
  unfold settled. cbn [act flusher handlers shared].
  settle p; try assumption.
  intros h0 x Hx. destruct (decide (h0 = h)) as [->|Hne].
  - rewrite lookup_insert_eq in Hx. inversion Hx; subst.
    destruct (free_spec _ _ (Hfree eq_refl)) as [Hw Hno]. cbn in Hw, Hno.
    split; [reflexivity|]. split; [exact Hw|].
    intros h' x' Hx'. destruct (decide (h' = h)) as [->|Hne']; [reflexivity|].
    rewrite lookup_insert_ne in Hx' by congruence.
    exfalso. exact (Hno _ _ Hx').
  - rewrite lookup_insert_ne in Hx by congruence.
    destruct (Hh h0 x Hx) as (H1 & H2 & H3).
    split; [exact H1|]. split; [exact H2|].
    intros h' x' Hx'. destruct (decide (h' = h)) as [->|Hne'].
    + rewrite lookup_insert_eq in Hx'. inversion Hx'; subst.
      destruct (free_spec _ _ (Hfree eq_refl)) as [_ Hno]. cbn in Hno.
      exfalso. exact (Hno _ _ Hx).
    + rewrite lookup_insert_ne in Hx' by congruence. exact (H3 _ _ Hx').
Qed.

Lemma write_settled (E : Env) (c : string) (s : Machine) (total : Z) (h : nat) :
  settled c total s ->
  (pending (shared s) c + completes c (VisitWrite h) s <= max_int)%Z ->
  settled c (total + completes c (VisitWrite h) s) (act E (VisitWrite h) s) /\
  pending (shared (act E (VisitWrite h) s)) c
  = (pending (shared s) c + completes c (VisitWrite h) s)%Z.
Proof.
  destruct s as [pc hs w]. intros (p & Hp & Hlo & Hh & Hpc) Hmax.
  unfold completes in *. cbn [flusher handlers shared] in *.
  cbn [act handlers].
  destruct (hs !! h) as [[k x]|] eqn:Hk.
  - destruct (decide (k = c)) as [->|Hne].
    + rewrite bool_decide_eq_true_2 in * by reflexivity.
      destruct (Hh h x Hk) as (-> & Hw & Huniq).
      assert (Hz : pending (with_cache (<[c := wrap_int (pending w c + 1)]>
                                          (visitCountCache w)) w) c
                   = (pending w c + 1)%Z).
      { assert (Hq : wrap_int (pending w c + 1) = (pending w c + 1)%Z)
          by (apply wrap_int_small; unfold min_int; lia).
        rewrite Hq. unfold pending at 1. cbn [visitCountCache with_cache].
        rewrite lookup_insert_eq. reflexivity. }
      cbn [shared]. split; [|exact Hz].
      unfold settled. cbn [flusher handlers shared]. rewrite Hz.
      settle p; [exact Hp | lia | |].
      * intros h0 x0 Hx0. apply lookup_delete_Some in Hx0 as [Hne Hx0].
        exfalso. apply Hne. symmetry. exact (Huniq _ _ Hx0).
      * destruct pc as [rest|k count rest|k rest]; cbn in Hw.
        -- lia.
        -- apply bool_decide_eq_false in Hw. destruct Hpc as [Hsum Hc].
           split; [lia|]. intros ->. contradiction.
        -- rewrite Hw in *. lia.
    + rewrite bool_decide_eq_false_2 in * by exact Hne.
      assert (Hz : pending (with_cache (<[k := wrap_int (x + 1)]>
                                          (visitCountCache w)) w) c
                   = pending w c).
      { unfold pending. cbn. rewrite lookup_insert_ne by exact Hne. reflexivity. }
      cbn [shared]. split; [|lia].
      unfold settled. cbn [flusher handlers shared]. rewrite Hz, Z.add_0_r.
      settle p; [exact Hp | exact Hlo | |].
      * intros h0 x0 Hx0. apply lookup_delete_Some in Hx0 as [Hne0 Hx0].
        destruct (Hh h0 x0 Hx0) as (H1 & H2 & H3).
        split; [exact H1|]. split; [exact H2|].
        intros h' x' Hx'. apply lookup_delete_Some in Hx' as [_ Hx'].
        exact (H3 _ _ Hx').
      * destruct pc as [rest|k' count rest|k' rest]; try exact Hpc.
        destruct Hpc as [Hsum Hc]. split; [exact Hsum|].
        intros Hk'. cbn. rewrite lookup_insert_ne by exact Hne. exact (Hc Hk').
  - split; [|cbn [shared]; lia]. rewrite Z.add_0_r.
    settle p; assumption.
Qed.

Lemma act_settled (E : Env) (c : string) (a : Action) (s : Machine) (total : Z) :
  settled c total s ->
  (enters c a s = true -> free c s = true) ->
  idle a s = true ->
  (pending (shared s) c + completes c a s <= max_int)%Z ->
  settled c (total + completes c a s) (act E a s) /\
  (pending (shared (act E a s)) c <= pending (shared s) c + completes c a s)%Z.
Proof.
  intros Hs Hent Hidle Hmax. destruct a as [|h k|h].
  - cbn [completes]. rewrite !Z.add_0_r. apply flush_settled; assumption.
  - cbn [completes]. rewrite !Z.add_0_r. split; [|cbn; lia].
    apply read_settled; [exact Hs | | ].
    + cbn in Hidle. apply bool_decide_eq_true in Hidle. exact Hidle.
    + intros ->. apply Hent. cbn. apply bool_decide_eq_true_2. reflexivity.
  - destruct (write_settled E c s total h Hs Hmax) as [H1 H2].
    split; [exact H1 | lia].
Qed.

Lemma interleave_settled (E : Env) (c : string) (sched : list Action)
      (s : Machine) (total : Z) :
  settled c total s ->
  exclusive E c sched s = true ->
  (pending (shared s) c + count_visits E c sched s <= max_int)%Z ->
  settled c (total + count_visits E c sched s) (interleave E sched s).
Proof.
  revert s total. induction sched as [|a rest IH]; intros s total Hs Hex Hmax.
  - cbn. rewrite Z.add_0_r. exact Hs.
  - cbn [exclusive] in Hex.
    apply andb_prop in Hex as [Hex Hrest]. apply andb_prop in Hex as [Hent Hidle].
    cbn [count_visits] in *.
    pose proof (count_visits_nonneg E c rest (act E a s)) as Hnn.
    destruct (act_settled E c a s total Hs) as [Hs' Hp'].
    + intros He. rewrite He in Hent. exact Hent.
    + exact Hidle.
    + lia.
    + unfold interleave. cbn [fold_left]. rewrite Z.add_assoc.
      apply IH; [exact Hs' | exact Hrest | lia].
Qed.

(** Between the UPDATE of the flush and its store of 0 a whole increment
    of a handler fits, and the store of 0 erases it. *)
Lemma visit_in_window_is_lost (E : Env) (c : string) (count : Z)
      (rest : list string) (hs : gmap nat (string * Z)) (w : World) (h : nat) :
  faulty E (length (journal w)) (UpdateVisits count c) = false ->
  let s := {| flusher := AtExec c count rest; handlers := hs; shared := w |} in
  let sched := [FlushStep; VisitRead h c; VisitWrite h; FlushStep] in
  count_visits E c sched s = 1%Z /\
  url_mapping (shared (interleave E sched s)) = update_visits count c (url_mapping w) /\
  pending (shared (interleave E sched s)) c = 0%Z.
Proof.
  intros Hf s sched. subst s sched.
  unfold interleave. cbn [fold_left count_visits completes act flusher handlers shared flush_step].
  unfold execUpdate, issue. rewrite Hf.
  cbn [negb fst snd flusher handlers shared flush_step].
  rewrite !lookup_insert_eq. rewrite bool_decide_eq_true_2 by reflexivity.
  split; [reflexivity|]. split; [reflexivity|].
  unfold pending at 1. cbn. rewrite lookup_insert_eq. reflexivity.
Qed.

(** Two handlers that both read the entry before either stores it store
    the same value: two increments complete and the entry rises by one. *)
Lemma overlapping_visits_lose_one (E : Env) (c : string) (s : Machine)
      (h1 h2 : nat) :
  h1 <> h2 ->
  let sched := [VisitRead h1 c; VisitRead h2 c; VisitWrite h1; VisitWrite h2] in
  count_visits E c sched s = 2%Z /\
  url_mapping (shared (interleave E sched s)) = url_mapping (shared s) /\
  pending (shared (interleave E sched s)) c = wrap_int (pending (shared s) c + 1).
Proof.
  intros Hne sched. subst sched.
  unfold interleave.
  cbn [fold_left count_visits completes act flusher handlers shared].
  rewrite (lookup_insert_ne _ h2 h1) by congruence.
  rewrite !lookup_insert_eq. cbn [handlers shared].
  rewrite !lookup_delete_ne by congruence.
  rewrite !lookup_insert_eq. cbn [handlers shared].
  rewrite !bool_decide_eq_true_2 by reflexivity.
  split; [reflexivity|]. split; [reflexivity|].
  unfold pending at 1. cbn. rewrite lookup_insert_eq. reflexivity.
Qed.

Lemma start_settled (c : string) (order : list string) (w : World) (p : Z) :
  visits_of c (url_mapping w) = Some p ->
  (0 <= pending w c)%Z ->
  settled c (p + pending w c) (start order w).
Proof.
  intros Hp Hlo. unfold settled, start. cbn [flusher handlers shared].
  settle p; [exact Hp | exact Hlo | | reflexivity].
  intros h x Hx. rewrite lookup_empty in Hx. discriminate.
Qed.

Lemma settled_accounted (c : string) (total : Z) (s : Machine) :
  settled c total s ->
  in_window (flusher s) c = false ->
  accounted c (shared s) = total.
Proof.
  intros (p & Hp & _ & _ & Hpc) Hw. unfold accounted. rewrite Hp. cbn [default].
  destruct (flusher s) as [rest|k count rest|k rest]; cbn [in_window] in Hw.
  - exact Hpc.
  - destruct Hpc as [Hsum _]. exact Hsum.
  - rewrite Hw in Hpc. exact Hpc.
Qed.

(** C8, as the code has it.  The map has no lock, and every goroutine
    steps on it as the schedule says.  If over a schedule no goroutine
    starts work on the
    entry of [c] while another is in the middle of its own (the flush
    between its read of the entry and its store of 0, a handler between its
    read and its store), and the counts stay in the 64-bit range, then
    whenever the flush is not in the middle of its work on [c] the row and
    the cache together hold the visits there were plus the increments
    completed.  Otherwise increments are lost: two handlers that read the
    entry before either stores it complete two increments and raise the
    entry by one, and an increment that falls between the UPDATE of the
    flush and its store of 0 is erased by that store. *)
Theorem visits_kept_when_exclusive (E : Env) (c : string) :
  (forall (order : list string) (sched : list Action) (w : World) (p : Z),
     visits_of c (url_mapping w) = Some p ->
     (0 <= p)%Z ->
     (0 <= pending w c)%Z ->
     (p + pending w c + count_visits E c sched (start order w) <= max_int)%Z ->
     exclusive E c sched (start order w) = true ->
     in_window (flusher (interleave E sched (start order w))) c = false ->
     accounted c (shared (interleave E sched (start order w)))
     = (accounted c w + count_visits E c sched (start order w))%Z) /\
  (forall (s : Machine) (h1 h2 : nat),
     h1 <> h2 ->
     let sched := [VisitRead h1 c; VisitRead h2 c; VisitWrite h1; VisitWrite h2] in
     count_visits E c sched s = 2%Z /\
     url_mapping (shared (interleave E sched s)) = url_mapping (shared s) /\
     pending (shared (interleave E sched s)) c
     = wrap_int (pending (shared s) c + 1)) /\
  (forall (count : Z) (rest : list string) (hs : gmap nat (string * Z))
          (w : World) (h : nat),
     faulty E (length (journal w)) (UpdateVisits count c) = false ->
     let s := {| flusher := AtExec c count rest; handlers := hs; shared := w |} in
     let sched := [FlushStep; VisitRead h c; VisitWrite h; FlushStep] in
     count_visits E c sched s = 1%Z /\
     url_mapping (shared (interleave E sched s))
     = update_visits count c (url_mapping w) /\
     pending (shared (interleave E sched s)) c = 0%Z).
Proof.
  split; [|split].
  - intros order sched w p Hp Hp0 Hlo Hmax Hex Hwin.
    pose proof (start_settled c order w p Hp Hlo) as Hs.
    apply (interleave_settled E c sched) in Hs; [|exact Hex|].
    + rewrite (settled_accounted _ _ _ Hs Hwin).
      unfold accounted. rewrite Hp. reflexivity.
    + cbn [start shared]. cbn [start] in Hmax. lia.
  - intros s h1 h2 Hne. apply overlapping_visits_lose_one. exact Hne.
  - intros count rest hs w h Hf. apply visit_in_window_is_lost. exact Hf.
Qed.

Lemma visits_kept_when_exclusive_witness :
  let sched := [VisitRead 0 "abc1"; VisitWrite 0; FlushStep; FlushStep;
                FlushStep; VisitRead 1 "abc1"; VisitWrite 1] in
  (visits_of "abc1" (url_mapping race_world) = Some 0%Z /\
   (0 <= pending race_world "abc1")%Z /\
   count_visits demo_env "abc1" sched (start ["abc1"] race_world) = 2%Z /\
   (0 + pending race_world "abc1"
    + count_visits demo_env "abc1" sched (start ["abc1"] race_world) <= max_int)%Z /\
   exclusive demo_env "abc1" sched (start ["abc1"] race_world) = true /\
   in_window (flusher (interleave demo_env sched (start ["abc1"] race_world))) "abc1"
   = false /\
   accounted "abc1" (shared (interleave demo_env sched (start ["abc1"] race_world)))
   = (accounted "abc1" race_world
      + count_visits demo_env "abc1" sched (start ["abc1"] race_world))%Z) /\
  (0 <> 1 /\
   pending (shared (interleave demo_env
                      [VisitRead 0 "abc1"; VisitRead 1 "abc1"; VisitWrite 0; VisitWrite 1]
                      (start ["abc1"] race_world))) "abc1"
   = wrap_int (pending race_world "abc1" + 1)) /\
  (faulty demo_env (length (journal race_world)) (UpdateVisits 5 "abc1") = false /\
   pending (shared (interleave demo_env
                      [FlushStep; VisitRead 0 "abc1"; VisitWrite 0; FlushStep]
                      {| flusher := AtExec "abc1" 5 []; handlers := ∅;
                         shared := race_world |})) "abc1" = 0%Z).
Proof.
  intros sched.
  destruct (visits_kept_when_exclusive demo_env "abc1") as (Hkept & Htwo & Hwin).
  split; [|split].
  - split; [reflexivity|]. split; [vm_compute; discriminate|].
    split; [vm_compute; reflexivity|]. split; [vm_compute; discriminate|].
    split; [vm_compute; reflexivity|]. split; [vm_compute; reflexivity|].
    apply (Hkept ["abc1"] sched race_world 0%Z).
    + reflexivity.
    + lia.
    + vm_compute. discriminate.
    + vm_compute. discriminate.
    + vm_compute. reflexivity.
    + vm_compute. reflexivity.
  - split; [lia|].
    destruct (Htwo (start ["abc1"] race_world) 0 1) as (_ & _ & H); [lia|].
    exact H.
  - split; [reflexivity|].
    destruct (Hwin 5%Z [] ∅ race_world 0) as (_ & _ & H); [reflexivity|].
    exact H.
Defined.

(** C8, as claimed, fails on the code.  Five visits of [abc1] are pending.
    In [race] the flush reads 5 and runs its UPDATE, a request increments
    the entry to 6, the flush stores 0: one increment completed and the row
    and the cache hold 5 visits, not 6.  In [race_of_handlers] no flush
    runs: two requests read 5, both store 6: two increments completed and
    6 visits held, not 7. *)
Lemma visit_lost_in_race :
  accounted "abc1" race_world = 5%Z /\
  (count_visits demo_env "abc1" race (start ["abc1"] race_world) = 1%Z /\
   flusher (interleave demo_env race (start ["abc1"] race_world)) = AtRange [] /\
   accounted "abc1" (shared (interleave demo_env race (start ["abc1"] race_world)))
   = 5%Z) /\
  (count_visits demo_env "abc1" race_of_handlers (start ["abc1"] race_world) = 2%Z /\
   handlers (interleave demo_env race_of_handlers (start ["abc1"] race_world)) = ∅ /\
   accounted "abc1"
     (shared (interleave demo_env race_of_handlers (start ["abc1"] race_world)))
   = 6%Z).
Proof. vm_compute. repeat split; reflexivity. Qed.

(** ** The scenario of the specification, computed

    Charset [abc123], length 4: the first call mints a code of four bytes
    of the charset, the second call returns the same code and adds no row,
    and the lookup of the code gives the long URL back. *)
Example scenario_abc123 :
  let '(r1, w1) := Part001.createShortURL demo_env 1 example_com empty_world in
  let '(r2, w2) := Part001.createShortURL demo_env 1 example_com w1 in
  r1 = Some (Ok "123a") /\ r2 = Some (Ok "123a") /\
  length (url_mapping w2) = 1 /\
  fst (getLongURL demo_env "123a" w2) = Ok example_com.
Proof. vm_compute. repeat split; reflexivity. Qed.

(** * Further properties of the code *)

(** ** randomString, byte by byte *)

Lemma fill_get (charset : string) (b : list ascii) (s : string) :
  fill charset b = Ok s ->
  forall i x, b !! i = Some x ->
    String.get i s
    = String.get (nat_of_ascii x mod (String.length charset mod 256)) charset.
Proof.
  revert s. induction b as [|y b IH]; intros s H i x Hx; [discriminate|].
  simpl in H. unfold pick in H.
  destruct (String.length charset mod 256 =? 0); [discriminate|].
  destruct (String.get _ charset) as [c|] eqn:Hget; [|discriminate].
  destruct (fill charset b) as [s'| |]; try discriminate.
  injection H as <-. destruct i as [|i]; simpl in *.
  - injection Hx as <-. symmetry. exact Hget.
  - apply IH; [reflexivity | exact Hx].
Qed.

(** X1.  With a charset whose length modulo 256 is [m <> 0],
    [randomString(n)] reads exactly [n] bytes from the random source,
    touches nothing else, and the byte [i] of its result is the byte of
    the charset at index [b_i mod m], where [b_i] is the [i]-th byte read:
    an index below [m], so that of a charset of more than 256 bytes only
    the first [m] are ever used. *)
Theorem randomString_bytes (E : Env) (n : Z) (w : World) :
  (0 <= n)%Z ->
  String.length (Charset (cfg E)) mod 256 <> 0 ->
  exists s,
    randomString E n w
    = (Ok s, {| url_mapping := url_mapping w; journal := journal w;
                visitCountCache := visitCountCache w;
                drawn := drawn w + Z.to_nat n |}) /\
    forall i, i < Z.to_nat n ->
      let j := nat_of_ascii (entropy E (drawn w + i))
               mod (String.length (Charset (cfg E)) mod 256) in
      j < String.length (Charset (cfg E)) mod 256 /\
      String.get i s = String.get j (Charset (cfg E)).
Proof.
  intros Hn Hm. unfold randomString, randRead.
  destruct (Z.ltb_spec n 0) as [?|_]; [lia|].
  destruct (fill_ok (Charset (cfg E)) (map (entropy E) (seq (drawn w) (Z.to_nat n))) Hm)
    as (s & Hs & _).
  exists s. rewrite Hs. split; [reflexivity|].
  intros i Hi. cbv zeta. split; [apply Nat.mod_upper_bound; exact Hm|].
  apply (fill_get _ _ _ Hs).
  change (map (entropy E) (seq (drawn w) (Z.to_nat n)))
    with (entropy E <$> seq (drawn w) (Z.to_nat n)).
  rewrite list_lookup_fmap, lookup_seq_lt by exact Hi. reflexivity.
Qed.

Lemma randomString_bytes_witness :
  (0 <= 4)%Z /\
  exists s,
    randomString demo_env 4 empty_world
    = (Ok s, {| url_mapping := []; journal := [];
                visitCountCache := ∅; drawn := 4 |}) /\
    forall i, i < 4 ->
      let j := nat_of_ascii (entropy demo_env (0 + i)) mod (6 mod 256) in
      j < 6 mod 256 /\ String.get i s = String.get j "abc123".
Proof.
  split; [lia|].
  apply (randomString_bytes demo_env 4 empty_world); [lia|].
  vm_compute. discriminate.
Defined.

(** ** The two lookups by short code *)

Lemma existsb_find {A} (f : A -> bool) (l : list A) :
  existsb f l = true <-> is_Some (List.find f l).
Proof.
  induction l as [|x l IH]; simpl.
  - split; [discriminate | intros [? ?]; discriminate].
  - destruct (f x); simpl; [split; eauto | exact IH].
Qed.

(** X2.  [shortURLExists] and [getLongURL] agree on every code: when
    neither hits a storage error, the first answers true exactly when the
    second returns a long URL, and false exactly when the second returns
    [sql.ErrNoRows]; a missing code is never reported as any other error. *)
Theorem exists_agrees_with_lookup (E : Env) (c : string) (w : World) :
  faulty E (length (journal w)) (SelectExists c) = false ->
  faulty E (length (journal w)) (SelectLongByShort c) = false ->
  (fst (shortURLExists E c w) = Ok true <->
   exists u, fst (getLongURL E c w) = Ok u) /\
  (fst (shortURLExists E c w) = Ok false <->
   fst (getLongURL E c w) = Err ErrNoRows).
Proof.
  intros H1 H2. unfold shortURLExists, getLongURL.
  rewrite (issue_ok _ _ _ H1), (issue_ok _ _ _ H2). cbn [url_mapping fst].
  unfold select_exists, select_long_by_short.
  pose proof (existsb_find (has_short c) (url_mapping w)) as Hx.
  destruct (List.find (has_short c) (url_mapping w)) as [r|]; simpl.
  - assert (Ht : existsb (has_short c) (url_mapping w) = true) by (apply Hx; eauto).
    rewrite Ht. split; split; eauto; discriminate.
  - destruct (existsb (has_short c) (url_mapping w)).
    + destruct Hx as [Hx _]. destruct (Hx eq_refl) as [? ?]. discriminate.
    + split; split; try discriminate; auto. intros [u Hu]. discriminate.
Qed.

Lemma exists_agrees_with_lookup_witness :
  (fst (shortURLExists demo_env "zzzz" demo_store) = Ok false <->
   fst (getLongURL demo_env "zzzz" demo_store) = Err ErrNoRows).
Proof.
  apply (exists_agrees_with_lookup demo_env "zzzz" demo_store); reflexivity.
Defined.

(** ** What a creation appends *)

Lemma execInsert_rows (E : Env) (c u : string) (st : bool) (w : World) :
  let w1 := snd (execInsert E c u st w) in
  url_mapping w1 = url_mapping w \/
  exists stamp, url_mapping w1 = url_mapping w ++ [row c u 0 stamp] /\
                select_exists c (url_mapping w) = false.
Proof.
  unfold execInsert, issue, insert_mapping.
  destruct (negb _); simpl; auto.
  destruct (select_exists c (url_mapping w)) eqn:Hx; simpl; eauto.
Qed.

Lemma mint_rows (E : Env) (len : Z) (st : bool) (fuel : nat) (u : string) (w : World) :
  let w' := snd (mint E len st fuel u w) in
  url_mapping w' = url_mapping w \/
  exists c stamp, url_mapping w' = url_mapping w ++ [row c u 0 stamp] /\
                  select_exists c (url_mapping w) = false.
Proof.
  revert w. induction fuel as [|fuel IH]; intros w; simpl; [auto|].
  pose proof (randomString_world E len w) as (Ht1 & _ & _).
  destruct (randomString E len w) as [[s| |] w1]; simpl in *; auto.
  pose proof (shortURLExists_world E s w1) as (Ht2 & _).
  destruct (shortURLExists E s w1) as [[[|]| |] w2]; simpl in *;
    try (rewrite Ht2, Ht1; auto; fail).
  - pose proof (IH w2) as H. rewrite Ht2, Ht1 in H. exact H.
  - pose proof (execInsert_rows E s u st w2) as H. rewrite Ht2, Ht1 in H.
    destruct (execInsert E s u st w2) as [[x| |] w3]; simpl in *;
      (destruct H as [?|(stamp & ? & ?)]; [auto | eauto]).
Qed.

Lemma create_rows (E : Env) (fuel : nat) (u : string) (w : World) :
  let w' := snd (Part001.createShortURL E fuel u w) in
  url_mapping w' = url_mapping w \/
  exists c stamp, url_mapping w' = url_mapping w ++ [row c u 0 stamp] /\
                  select_exists c (url_mapping w) = false /\
                  select_short_by_long u (url_mapping w) = None.
Proof.
  unfold Part001.createShortURL, issue.
  destruct (negb _); cbn [url_mapping]; [|simpl; auto].
  destruct (select_short_by_long u (url_mapping w)) eqn:Hu; [simpl; auto|].
  match goal with |- context [mint E ?l ?st fuel u ?w1] =>
    destruct (mint_rows E l st fuel u w1) as [H|(c & stamp & H1 & H2)] end.
  - left. exact H.
  - right. exists c, stamp. auto.
Qed.

(** A request either keeps the key, the long URL and the stamp of every
    row, or appends one row under a free key for a long URL that had
    none. *)
Lemma step_table (E : Env) (req : Request) (w : World) :
  map frame (url_mapping (step E req w)) = map frame (url_mapping w) \/
  exists c u stamp,
    url_mapping (step E req w) = url_mapping w ++ [row c u 0 stamp] /\
    select_exists c (url_mapping w) = false /\
    select_short_by_long u (url_mapping w) = None.
Proof.
  pose proof (step_rows E req w) as H.
  destruct req as [u fuel|c|path|path|order]; cbv zeta in H;
    try (left; rewrite H; reflexivity); try (left; exact H).
  clear H. destruct (create_rows E fuel u w) as [H|(c & stamp & H)].
  - left. simpl. rewrite H. reflexivity.
  - right. exists c, u, stamp. exact H.
Qed.

Lemma short_url_frame (t : list Row) :
  map short_url t = map (fun f => f.1.1) (map frame t).
Proof. rewrite map_map. reflexivity. Qed.

Lemma long_url_frame (t : list Row) :
  map long_url t = map (fun f => f.1.2) (map frame t).
Proof. rewrite map_map. reflexivity. Qed.

Lemma select_exists_false (c : string) (t : list Row) :
  select_exists c t = false -> c ∉ map short_url t.
Proof.
  unfold select_exists. induction t as [|r t IH]; simpl; intros H.
  - apply not_elem_of_nil.
  - apply orb_false_elim in H as [Hr H]. apply bool_decide_eq_false_1 in Hr.
    apply not_elem_of_cons. split; [congruence | exact (IH H)].
Qed.

Lemma select_exists_true (c : string) (t : list Row) :
  select_exists c t = true <-> c ∈ map short_url t.
Proof.
  unfold select_exists. induction t as [|r t IH]; simpl.
  - rewrite elem_of_nil. split; [discriminate | tauto].
  - rewrite elem_of_cons, orb_true_iff, IH. unfold has_short.
    rewrite bool_decide_eq_true. split; intros [?|?]; auto.
Qed.

Lemma select_short_by_long_none (u : string) (t : list Row) :
  select_short_by_long u t = None -> u ∉ map long_url t.
Proof.
  unfold select_short_by_long. induction t as [|r t IH]; simpl; intros H.
  - apply not_elem_of_nil.
  - unfold has_long in *. case_bool_decide as Hr; [discriminate|].
    apply not_elem_of_cons. split; [congruence | exact (IH H)].
Qed.

(** ** Invariants over the life of the process *)

(** The INSERT of a code that [shortURLExists] has just found free is not
    refused by the primary key. *)
Lemma execInsert_free (E : Env) (c u : string) (st : bool) (w : World) :
  select_exists c (url_mapping w) = false ->
  fst (execInsert E c u st w) <> Err ErrConstraint.
Proof.
  intros Hfree. unfold execInsert, issue, insert_mapping.
  destruct (negb _); cbn -[select_exists]; [|discriminate].
  rewrite Hfree. discriminate.
Qed.

Lemma mint_no_constraint (E : Env) (len : Z) (st : bool) (fuel : nat)
    (u : string) (w : World) :
  fst (mint E len st fuel u w) <> Some (Err ErrConstraint).
Proof.
  revert w. induction fuel as [|fuel IH]; intros w; simpl; [discriminate|].
  pose proof (randomString_world E len w) as (Ht1 & _ & _).
  destruct (randomString E len w) as [[s| |] w1] eqn:Hr; simpl in *.
  - destruct (shortURLExists E s w1) as [[[|]| |] w2] eqn:Hx; simpl.
    + apply IH.
    + apply shortURLExists_inv in Hx as (Hfree & Ht2 & _).
      pose proof (execInsert_free E s u st w2) as Hi.
      rewrite Ht2 in Hi. specialize (Hi (eq_sym Hfree)).
      destruct (execInsert E s u st w2) as [[x| |] w3]; simpl in *;
        congruence.
    + unfold shortURLExists, issue in Hx.
      destruct (negb _); inversion Hx; discriminate.
    + unfold shortURLExists, issue in Hx.
      destruct (negb _); inversion Hx.
  - unfold randomString in Hr. destruct (len <? 0)%Z; [discriminate|].
    simpl in Hr. inversion Hr.
    match goal with H : fill ?cs ?b = Err ?e |- _ =>
      exfalso; revert H; clear; generalize b as l; intros l;
      induction l as [|x l IHl]; simpl; [discriminate|];
      unfold pick; destruct (_ =? 0); [discriminate|];
      destruct (String.get _ cs); [|discriminate];
      destruct (fill cs l) as [s'|e'|m']; [discriminate | | discriminate];
      intros H; inversion H; subst; apply IHl; reflexivity
    end.
  - discriminate.
Qed.

(** X3.  [createShortURL] never fails on the primary key, in either
    revision: the INSERT of a code is issued only after [shortURLExists]
    has answered false on the same table, with no statement in between, so
    the store has no taken key to refuse.  Whatever the storage errors and
    the random bytes, the call does not return the constraint error. *)
Theorem createShortURL_never_hits_primary_key (E : Env) (fuel : nat)
    (u : string) (w : World) :
  fst (MainGo.createShortURL E fuel u w) <> Some (Err ErrConstraint) /\
  fst (Part001.createShortURL E fuel u w) <> Some (Err ErrConstraint).
Proof.
  split; [apply mint_no_constraint|].
  unfold Part001.createShortURL, issue.
  destruct (negb _); cbn -[mint select_short_by_long]; [|discriminate].
  destruct (select_short_by_long u (url_mapping w)); [discriminate|].
  apply mint_no_constraint.
Qed.

(** X4.  With the creation of [part_001], a long URL never gets a second
    code from sequential requests: if no two rows share a [long_url], none
    do after any sequence of requests.  The INSERT is only reached when
    the lookup by [long_url] found no row. *)
Theorem one_code_per_long_url (E : Env) (reqs : list Request) (w : World) :
  NoDup (map long_url (url_mapping w)) ->
  NoDup (map long_url (url_mapping (run E reqs w))).
Proof.
  revert w. induction reqs as [|req reqs IH]; intros w Hnd; [exact Hnd|].
  change (run E (req :: reqs) w) with (run E reqs (step E req w)).
  apply IH. destruct (step_table E req w) as [H|(c & u & stamp & -> & _ & Hu)].
  - rewrite long_url_frame, H, <- long_url_frame. exact Hnd.
  - rewrite map_app. simpl. apply NoDup_app. split; [exact Hnd|].
    split; [|apply NoDup_singleton].
    intros x Hx Hx'. apply list_elem_of_singleton in Hx'. subst x.
    apply (select_short_by_long_none u _ Hu). exact Hx.
Qed.

Lemma one_code_per_long_url_witness :
  NoDup (map long_url (url_mapping demo_store)) /\
  NoDup (map long_url
           (url_mapping (run demo_env [Create example_com 2; Create "https://b.example" 2;
                                       Create example_com 2] demo_store))).
Proof.
  assert (H : NoDup (map long_url (url_mapping demo_store))).
  { apply NoDup_singleton. }
  split; [exact H|].
  apply (one_code_per_long_url demo_env _ demo_store H).
Defined.

Lemma select_exists_frame (c : string) (t t' : list Row) :
  map frame t' = map frame t -> select_exists c t' = select_exists c t.
Proof.
  intros H. apply eq_true_iff_eq. rewrite !select_exists_true.
  rewrite !short_url_frame, H. reflexivity.
Qed.

Lemma select_exists_app (c : string) (t k : list Row) :
  select_exists c t = true -> select_exists c (t ++ k) = true.
Proof.
  unfold select_exists. rewrite existsb_app. intros ->. reflexivity.
Qed.

Lemma handleRedirect_cache (E : Env) (path : string) (w : World) :
  let w' := snd (MainGo.handleRedirect E path w) in
  visitCountCache w' = visitCountCache w \/
  (dom (visitCountCache w') = {[TrimPrefix path "/r/"]} ∪ dom (visitCountCache w) /\
   select_exists (TrimPrefix path "/r/") (url_mapping w) = true).
Proof.
  unfold MainGo.handleRedirect, getLongURL, issue.
  destruct (negb _); simpl; auto.
  destruct (select_long_by_short (TrimPrefix path "/r/") (url_mapping w)) as [u|] eqn:Hu;
    simpl; auto.
  right. split; [apply dom_insert_L|].
  unfold select_long_by_short in Hu. apply existsb_find.
  destruct (List.find _ (url_mapping w)); [eauto | discriminate].
Qed.

Lemma step_cached_codes (E : Env) (req : Request) (w : World) :
  cached_codes_have_rows w -> cached_codes_have_rows (step E req w).
Proof.
  intros Hinv.
  assert (Hgrow : forall c, select_exists c (url_mapping w) = true ->
                            select_exists c (url_mapping (step E req w)) = true).
  { intros c Hc. destruct (step_table E req w) as [H|(c' & u & stamp & -> & _)].
    - rewrite (select_exists_frame c _ _ H). exact Hc.
    - apply select_exists_app. exact Hc. }
  intros c Hc. apply Hgrow.
  destruct req as [u fuel|c'|path|path|order]; simpl in Hc.
  - destruct (createShortURL_world E fuel u w) as [Heq _].
    rewrite Heq in Hc. auto.
  - destruct (getLongURL_world E c' w) as [_ Heq]. rewrite Heq in Hc. auto.
  - destruct (handleRedirect_cache E path w) as [Heq|[Heq Hrow]].
    + rewrite Heq in Hc. auto.
    + rewrite Heq in Hc. apply elem_of_union in Hc as [Hc|Hc]; [|auto].
      apply elem_of_singleton in Hc. subst c. exact Hrow.
  - destruct (Part001_handleRedirect_world E path w) as [Heq _].
    rewrite Heq in Hc. auto.
  - rewrite flush_dom in Hc. auto.
Qed.

(** X5.  The cache only ever holds codes that have a row: a redirect
    increments the entry of a code after [getLongURL] found its row, a
    failed lookup adds no entry, and no request deletes a row.  So, over
    any sequence of requests, every UPDATE of a flush addresses a row
    that exists. *)
Theorem cached_codes_keep_rows (E : Env) (reqs : list Request) (w : World) :
  cached_codes_have_rows w -> cached_codes_have_rows (run E reqs w).
Proof.
  revert w. induction reqs as [|req reqs IH]; intros w Hinv; [exact Hinv|].
  change (run E (req :: reqs) w) with (run E reqs (step E req w)).
  apply IH, step_cached_codes, Hinv.
Qed.

Lemma cached_codes_keep_rows_witness :
  cached_codes_have_rows demo_store /\
  cached_codes_have_rows
    (run demo_env [Visit "/r/nope"; Visit "/r/1a2b"; Tick ["1a2b"]; Create "https://b.example" 2]
         demo_store).
Proof.
  assert (H : cached_codes_have_rows demo_store).
  { intros c Hc. simpl in Hc. rewrite dom_empty_L in Hc.
    apply not_elem_of_empty in Hc. contradiction. }
  split; [exact H|].
  apply (cached_codes_keep_rows demo_env _ demo_store H).
Defined.

(** ** More on the flush *)

(** X6.  A flush neither loses nor invents visits of a code that has a
    row, as long as the persisted count and its sum with the pending count
    are within the 64-bit range of the store: whatever the range order and
    whichever UPDATEs hit a storage error, the persisted count plus the
    pending count of the code is the same before and after
    [writeCacheToDB], and the persisted count stays within the range. *)
Theorem flush_conserves_visits (E : Env) (order : list string) (w : World)
    (c : string) (p : Z) :
  range_order order (visitCountCache w) ->
  visits_of c (url_mapping w) = Some p ->
  in_int64 p ->
  in_int64 (p + pending w c) ->
  accounted c (MainGo.writeCacheToDB E order w) = accounted c w /\
  exists p', visits_of c (url_mapping (MainGo.writeCacheToDB E order w)) = Some p' /\
             in_int64 p'.
Proof.
  intros [Hnd Hdom] Hp Hr1 Hr2. unfold accounted, pending in *.
  destruct (visitCountCache w !! c) as [v|] eqn:Hv.
  - destruct (flush_entry E order w c v Hnd) as (i & _ & _ & Hc & Hr).
    { apply Hdom. eauto. }
    { exact Hv. }
    rewrite Hc, Hr, Hp. simpl in *.
    destruct (faulty E i (UpdateVisits v c)); (split; [lia|]);
      (eexists; split; [reflexivity | rewrite ?Z.add_0_r; assumption]).
  - destruct (flush_untouched E order w c) as [Hc Hr].
    { intros Hin. apply Hdom in Hin as [? ?]. congruence. }
    rewrite Hc, Hr, Hv. split; [reflexivity|]. eauto.
Qed.

Lemma flush_conserves_visits_witness :
  range_order ["abc1"; "def2"] (visitCountCache busy_world) /\
  visits_of "def2" (url_mapping busy_world) = Some 0%Z /\
  in_int64 0 /\
  in_int64 (0 + pending busy_world "def2") /\
  accounted "def2" (MainGo.writeCacheToDB flaky_env ["abc1"; "def2"] busy_world)
  = accounted "def2" busy_world /\
  exists p', visits_of "def2"
               (url_mapping (MainGo.writeCacheToDB flaky_env ["abc1"; "def2"] busy_world))
             = Some p' /\ in_int64 p'.
Proof.
  assert (Hord : range_order ["abc1"; "def2"] (visitCountCache busy_world)).
  { apply range_orderb_true. vm_compute. reflexivity. }
  assert (Hr1 : in_int64 0) by (split; vm_compute; discriminate).
  assert (Hr2 : in_int64 (0 + pending busy_world "def2"))
    by (split; vm_compute; discriminate).
  split; [exact Hord|]. split; [reflexivity|].
  split; [exact Hr1|]. split; [exact Hr2|].
  apply (flush_conserves_visits flaky_env _ busy_world "def2" 0 Hord eq_refl Hr1 Hr2).
Defined.

(** X7.  An entry whose code has no row is cleared all the same: the
    UPDATE matches no row, [db.Exec] reports no error, and the entry is
    stored as 0.  The pending visits of such a code are dropped. *)
Theorem flush_drops_visits_without_row (E : Env) (order : list string)
    (w : World) (c : string) (v : Z) :
  range_order order (visitCountCache w) ->
  visitCountCache w !! c = Some v ->
  visits_of c (url_mapping w) = None ->
  (forall i, faulty E i (UpdateVisits v c) = false) ->
  let w' := MainGo.writeCacheToDB E order w in
  visitCountCache w' !! c = Some 0%Z /\
  visits_of c (url_mapping w') = None /\
  exists i, journal w' !! i = Some (UpdateVisits v c, true).
Proof.
  intros [Hnd Hdom] Hv Hnone Hf w'.
  destruct (flush_entry E order w c v Hnd) as (i & _ & Hj & Hc & Hr).
  { apply Hdom. eauto. }
  { exact Hv. }
  fold w' in Hj, Hc, Hr. rewrite Hf in Hj, Hc. rewrite Hnone in Hr.
  split; [exact Hc|]. split; [exact Hr|]. exists i. exact Hj.
Qed.

Lemma flush_drops_visits_without_row_witness :
  range_order ["gone"] (visitCountCache orphan_world) /\
  visitCountCache orphan_world !! "gone" = Some 7%Z /\
  visits_of "gone" (url_mapping orphan_world) = None /\
  let w' := MainGo.writeCacheToDB demo_env ["gone"] orphan_world in
  visitCountCache w' !! "gone" = Some 0%Z /\
  visits_of "gone" (url_mapping w') = None /\
  exists i, journal w' !! i = Some (UpdateVisits 7 "gone", true).
Proof.
  assert (Hord : range_order ["gone"] (visitCountCache orphan_world)).
  { apply range_orderb_true. vm_compute. reflexivity. }
  split; [exact Hord|]. split; [reflexivity|]. split; [reflexivity|].
  apply (flush_drops_visits_without_row demo_env _ orphan_world "gone" 7 Hord).
  - reflexivity.
  - reflexivity.
  - intros i. reflexivity.
Defined.

Lemma bump_zero (c : string) (r : Row) : bump 0 c r = r.
Proof.
  unfold bump. destruct (has_short c r); [|reflexivity].
  destruct r as [s l v t]. simpl. rewrite Z.add_0_r. reflexivity.
Qed.

Lemma update_visits_zero (c : string) (t : list Row) : update_visits 0 c t = t.
Proof.
  unfold update_visits. induction t as [|r t IH]; simpl; [reflexivity|].
  rewrite bump_zero, IH. reflexivity.
Qed.

Lemma flush_zero_cache (E : Env) (order : list string) (w : World) :
  (forall k v, visitCountCache w !! k = Some v -> v = 0%Z) ->
  url_mapping (MainGo.writeCacheToDB E order w) = url_mapping w.
Proof.
  revert w. induction order as [|k rest IH]; intros w Hz; simpl; [reflexivity|].
  destruct (visitCountCache w !! k) as [count|] eqn:Hk; [|apply IH, Hz].
  assert (count = 0%Z) as -> by (eapply Hz, Hk).
  unfold execUpdate, issue.
  destruct (faulty E (length (journal w)) (UpdateVisits 0 k)); cbn [negb].
  - rewrite IH; [reflexivity | exact Hz].
  - rewrite IH; simpl.
    + apply update_visits_zero.
    + intros k' v. rewrite lookup_insert. case_decide; [congruence | apply Hz].
Qed.

(** X8.  Flushing twice in a row writes nothing new: after a flush in
    which no UPDATE failed every pending count is 0, and a second flush,
    in any order and whatever fails in it, leaves every row of the table
    as the first flush left it. *)
Theorem second_flush_changes_no_row (E : Env) (order order' : list string)
    (w : World) :
  range_order order (visitCountCache w) ->
  (forall i v k, i < length (journal w) + length order ->
                 faulty E i (UpdateVisits v k) = false) ->
  let w1 := MainGo.writeCacheToDB E order w in
  (forall k v, visitCountCache w1 !! k = Some v -> v = 0%Z) /\
  url_mapping (MainGo.writeCacheToDB E order' w1) = url_mapping w1.
Proof.
  intros [Hnd Hdom] Hf w1.
  assert (Hz : forall k v, visitCountCache w1 !! k = Some v -> v = 0%Z).
  { intros k v Hv.
    assert (Hk : k ∈ dom (visitCountCache w)).
    { unfold w1 in Hv. rewrite <- (flush_dom E order w). eapply elem_of_dom_2, Hv. }
    apply elem_of_dom in Hk as [v0 Hv0].
    destruct (flush_entry E order w k v0 Hnd) as (i & _ & Hj & Hc & _).
    { apply Hdom. eauto. }
    { exact Hv0. }
    fold w1 in Hj, Hc.
    assert (Hi : i < length (journal w) + length order).
    { apply lookup_lt_Some in Hj. unfold w1 in Hj.
      rewrite flush_journal_length in Hj; [exact Hj | exact Hnd |].
      intros k' Hk'. apply Hdom, Hk'. }
    rewrite (Hf i v0 k Hi) in Hc. congruence. }
  split; [exact Hz|]. apply flush_zero_cache, Hz.
Qed.

Lemma second_flush_changes_no_row_witness :
  range_order ["abc1"; "def2"] (visitCountCache busy_world) /\
  let w1 := MainGo.writeCacheToDB demo_env ["abc1"; "def2"] busy_world in
  (forall k v, visitCountCache w1 !! k = Some v -> v = 0%Z) /\
  url_mapping (MainGo.writeCacheToDB demo_env ["def2"; "abc1"] w1) = url_mapping w1.
Proof.
  assert (Hord : range_order ["abc1"; "def2"] (visitCountCache busy_world)).
  { apply range_orderb_true. vm_compute. reflexivity. }
  split; [exact Hord|].
  apply (second_flush_changes_no_row demo_env _ ["def2"; "abc1"] busy_world Hord).
  intros i v k _. reflexivity.
Defined.

(** ** createShortURL in [main.go] *)

Lemma mint_Ok_unstamped (E : Env) (len : Z) (fuel : nat) (u c : string) (w w' : World) :
  mint E len false fuel u w = (Some (Ok c), w') ->
  url_mapping w' = url_mapping w ++ [row c u 0 None] /\
  select_exists c (url_mapping w) = false /\
  String.length c = Z.to_nat len.
Proof.
  revert w. induction fuel as [|fuel IH]; intros w H; simpl in H; [discriminate|].
  destruct (randomString E len w) as [[s| |] w1] eqn:Hr; try discriminate.
  apply randomString_Ok_inv in Hr as (Hlen & _ & Ht1 & _ & _).
  destruct (shortURLExists E s w1) as [[[|]| |] w2] eqn:Hx; try discriminate.
  - apply shortURLExists_inv in Hx as (_ & Ht2 & _).
    destruct (IH w2 H) as (Happ & Hfree & Hl). rewrite Ht2, Ht1 in Happ, Hfree. auto.
  - apply shortURLExists_inv in Hx as (Hfree & Ht2 & _).
    destruct (execInsert E s u false w2) as [[x| |] w3] eqn:Hi; try discriminate.
    injection H as -> ->.
    apply execInsert_inv in Hi as (stamp & Happ & _ & Hst & _).
    rewrite Hst in Happ by reflexivity. rewrite Ht2, Ht1 in Happ.
    rewrite Ht1 in Hfree. auto.
Qed.

(** X9.  The [createShortURL] of [main.go] never reuses a code: it has no
    lookup by long URL, so two calls for the same long URL that both
    return leave two rows for it, under two different codes of 8 bytes
    each, whatever [cfg.ShortURL.Length] says. *)
Theorem MainGo_create_mints_every_time (E : Env) (f1 f2 : nat) (u c1 c2 : string)
    (w w1 w2 : World) :
  MainGo.createShortURL E f1 u w = (Some (Ok c1), w1) ->
  MainGo.createShortURL E f2 u w1 = (Some (Ok c2), w2) ->
  c1 <> c2 /\
  String.length c1 = 8 /\ String.length c2 = 8 /\
  url_mapping w2 = url_mapping w ++ [row c1 u 0 None; row c2 u 0 None].
Proof.
  intros H1 H2.
  apply mint_Ok_unstamped in H1 as (Ht1 & _ & Hl1).
  apply mint_Ok_unstamped in H2 as (Ht2 & Hfree & Hl2).
  split; [|split; [exact Hl1 | split; [exact Hl2|]]].
  - intros ->. rewrite Ht1 in Hfree. unfold select_exists in Hfree.
    rewrite existsb_app in Hfree. apply orb_false_elim in Hfree as [_ Hfree].
    simpl in Hfree. unfold has_short in Hfree. simpl in Hfree.
    rewrite bool_decide_eq_true_2 in Hfree by reflexivity. discriminate.
  - rewrite Ht2, Ht1, <- app_assoc. reflexivity.
Qed.

Lemma MainGo_create_mints_every_time_witness :
  let '(r1, w1) := MainGo.createShortURL demo_env 1 example_com empty_world in
  let '(r2, w2) := MainGo.createShortURL demo_env 1 example_com w1 in
  r1 = Some (Ok "123abc12") /\ r2 = Some (Ok "3abc123a") /\
  "123abc12" <> "3abc123a" /\
  url_mapping w2
  = [row "123abc12" example_com 0 None; row "3abc123a" example_com 0 None].
Proof.
  split; [reflexivity|]. split; [reflexivity|].
  pose proof (MainGo_create_mints_every_time demo_env 1 1 example_com
                "123abc12" "3abc123a" empty_world
                (snd (MainGo.createShortURL demo_env 1 example_com empty_world))
                (snd (MainGo.createShortURL demo_env 1 example_com
                        (snd (MainGo.createShortURL demo_env 1 example_com empty_world))))
                eq_refl eq_refl) as (Hne & _ & _ & Ht).
  split; [exact Hne | exact Ht].
Defined.

(** ** handleRedirect in [part_001] *)

Lemma select_long_update (n : Z) (k c : string) (t : list Row) :
  select_long_by_short c (update_visits n k t) = select_long_by_short c t.
Proof.
  unfold select_long_by_short. rewrite find_bump.
  destruct (List.find (has_short c) t) as [r|]; simpl; [|reflexivity].
  unfold bump. destruct (has_short k r); reflexivity.
Qed.

Lemma direct_redirect_hit (E : Env) (c u : string) (v : Z) (w : World) :
  c <> EmptyString -> u <> EmptyString ->
  select_long_by_short c (url_mapping w) = Some u ->
  visits_of c (url_mapping w) = Some v ->
  faulty E (length (journal w)) (SelectLongByShort c) = false ->
  let '(resp, w') := Part001.handleRedirect E ("/r/" +:+ c) w in
  resp = Redirect u /\
  visits_of c (url_mapping w')
  = Some (if faulty E (S (length (journal w))) (UpdateVisits 1 c) then v else v + 1)%Z /\
  (forall k, k <> c -> visits_of k (url_mapping w') = visits_of k (url_mapping w)) /\
  select_long_by_short c (url_mapping w') = Some u /\
  visitCountCache w' = visitCountCache w /\
  length (journal w') = length (journal w) + 2.
Proof.
  intros Hc Hu Hrow Hv Hf. unfold Part001.handleRedirect.
  rewrite TrimPrefix_app, bool_decide_eq_false_2 by exact Hc.
  unfold getLongURL. rewrite (issue_ok _ _ _ Hf). cbn [url_mapping].
  rewrite Hrow, bool_decide_eq_false_2 by exact Hu.
  unfold execUpdate, issue. cbn [journal]. rewrite length_app. cbn [length].
  rewrite Nat.add_1_r.
  destruct (faulty E (S (length (journal w))) (UpdateVisits 1 c));
    cbn [negb snd fst with_table url_mapping journal visitCountCache].
  - repeat split; auto. rewrite !length_app. simpl. lia.
  - rewrite visits_of_update, Hv, select_long_update.
    repeat split; auto.
    + intros k Hk. apply visits_of_update_ne. congruence.
    + rewrite !length_app. simpl. lia.
Qed.

(** X10.  The redirect of [part_001] does not depend on its UPDATE: for a
    non-empty code with a row and a non-empty long URL, the answer is the
    redirect to the long URL whether or not the UPDATE hits a storage
    error; the error only costs the visit, which is counted (exactly one,
    on that row alone) when the UPDATE goes through.  The cache is not
    used. *)
Theorem direct_redirect_counts_one (E : Env) (c u : string) (v : Z) (w : World) :
  c <> EmptyString -> u <> EmptyString ->
  select_long_by_short c (url_mapping w) = Some u ->
  visits_of c (url_mapping w) = Some v ->
  faulty E (length (journal w)) (SelectLongByShort c) = false ->
  let '(resp, w') := Part001.handleRedirect E ("/r/" +:+ c) w in
  resp = Redirect u /\
  visits_of c (url_mapping w')
  = Some (if faulty E (S (length (journal w))) (UpdateVisits 1 c) then v else v + 1)%Z /\
  (forall k, k <> c -> visits_of k (url_mapping w') = visits_of k (url_mapping w)) /\
  select_long_by_short c (url_mapping w') = Some u /\
  visitCountCache w' = visitCountCache w /\
  length (journal w') = length (journal w) + 2.
Proof. exact (direct_redirect_hit E c u v w). Qed.

Lemma direct_redirect_counts_one_witness :
  "1a2b" <> EmptyString /\ example_com <> EmptyString /\
  let '(resp, w') := Part001.handleRedirect demo_env ("/r/" +:+ "1a2b") demo_store in
  resp = Redirect example_com /\
  visits_of "1a2b" (url_mapping w')
  = Some (if faulty demo_env 1 (UpdateVisits 1 "1a2b") then 0 else 0 + 1)%Z /\
  (forall k, k <> "1a2b" ->
     visits_of k (url_mapping w') = visits_of k (url_mapping demo_store)) /\
  select_long_by_short "1a2b" (url_mapping w') = Some example_com /\
  visitCountCache w' = visitCountCache demo_store /\
  length (journal w') = length (journal demo_store) + 2.
Proof.
  split; [discriminate|]. split; [discriminate|].
  apply (direct_redirect_counts_one demo_env "1a2b" example_com 0 demo_store);
    try reflexivity; discriminate.
Defined.

(** X11.  Redirects of [part_001] add up in the store itself: after [n]
    redirects of a code with a row and a non-empty long URL, with no
    storage error, the persisted [visit_count] of the code is the one
    before plus [n], with no flush in between, as long as the count stays
    within the 64-bit range of the store. *)
Theorem direct_visits_add_up (E : Env) (n : nat) (c u : string) (v : Z) (w : World) :
  c <> EmptyString -> u <> EmptyString ->
  select_long_by_short c (url_mapping w) = Some u ->
  visits_of c (url_mapping w) = Some v ->
  in_int64 v ->
  in_int64 (v + Z.of_nat n) ->
  (forall i s, faulty E i s = false) ->
  visits_of c (url_mapping (direct_visits E n ("/r/" +:+ c) w))
  = Some (v + Z.of_nat n)%Z.
Proof.
  intros Hc Hu Hrow Hv _ _ Hf. revert w v Hrow Hv.
  induction n as [|n IH]; intros w v Hrow Hv.
  - simpl. rewrite Z.add_0_r. exact Hv.
  - cbn [direct_visits].
    pose proof (direct_redirect_hit E c u v w Hc Hu Hrow Hv (Hf _ _)) as H.
    destruct (Part001.handleRedirect E ("/r/" +:+ c) w) as [resp w'].
    destruct H as (_ & Hv' & _ & Hrow' & _). rewrite Hf in Hv'. cbn [snd].
    rewrite (IH w' (v + 1)%Z Hrow' Hv'). f_equal. lia.
Qed.

Lemma direct_visits_add_up_witness :
  "1a2b" <> EmptyString /\ example_com <> EmptyString /\
  in_int64 0 /\ in_int64 (0 + Z.of_nat 3) /\
  visits_of "1a2b" (url_mapping (direct_visits demo_env 3 ("/r/" +:+ "1a2b") demo_store))
  = Some (0 + Z.of_nat 3)%Z.
Proof.
  assert (Hr1 : in_int64 0) by (split; vm_compute; discriminate).
  assert (Hr2 : in_int64 (0 + Z.of_nat 3)) by (split; vm_compute; discriminate).
  split; [discriminate|]. split; [discriminate|].
  split; [exact Hr1|]. split; [exact Hr2|].
  apply (direct_visits_add_up demo_env 3 "1a2b" example_com 0 demo_store);
    try reflexivity; try assumption; discriminate.
Defined.

(** ** The start-up migration *)

Lemma migrate_all_stamped (now : Z) (t : list Row) :
  Forall (fun r => is_Some (created_at r)) (Part001.migrate now t).
Proof.
  unfold Part001.migrate. induction t as [|r t IH]; simpl; constructor; [|exact IH].
  unfold Part001.stamp_null. destruct (created_at r) as [x|] eqn:Hx; simpl; eauto.
Qed.


(** ** The statistics *)

Lemma min_nat (n : nat) :
  Z.to_nat (Part001Stats.min 10 (Z.of_nat n)) = Nat.min 10 n.
Proof.
  unfold Part001Stats.min. destruct (Z.ltb_spec 10 (Z.of_nat n)); lia.
Qed.

Lemma scan_rows_Done (rows : list Row) (links : list Part001Stats.LinkStats) :
  Part001Stats.scan_rows rows = Part001Stats.Done links ->
  Forall2 (fun r l => Part001Stats.scan_link r = Part001Stats.Done l) rows links.
Proof.
  revert links. induction rows as [|r rows IH]; intros links H; simpl in H.
  - injection H as <-. constructor.
  - destruct (Part001Stats.scan_link r) as [l|] eqn:Hl; [|discriminate].
    destruct (Part001Stats.scan_rows rows) as [ls|]; [|discriminate].
    injection H as <-. constructor; [exact Hl | apply IH; reflexivity].
Qed.

Lemma scan_rows_stamped (rows : list Row) :
  Forall (fun r => is_Some (created_at r)) rows ->
  exists links, Part001Stats.scan_rows rows = Part001Stats.Done links.
Proof.
  induction 1 as [|r rows [x Hx] _ [links IH]]; simpl; [eauto|].
  unfold Part001Stats.scan_link. rewrite Hx, IH. eauto.
Qed.

Lemma scan_rows_null (rows : list Row) :
  ~ Forall (fun r => is_Some (created_at r)) rows ->
  Part001Stats.scan_rows rows = Part001Stats.Failed Part001Stats.NullCreatedAt.
Proof.
  induction rows as [|r rows IH]; intros H; simpl.
  - exfalso. apply H. constructor.
  - unfold Part001Stats.scan_link. destruct (created_at r) as [x|] eqn:Hx; [|reflexivity].
    rewrite IH; [reflexivity|]. intros Hall. apply H. constructor; [eauto | exact Hall].
Qed.

(** What a successful [getStats] returns: the three slices are the same
    window on one new array, which holds the links as [sort.Slice] left
    them. *)
Lemma getStats_Done (S : Part001Stats.StatsEnv) (t : list Row)
    (h h' : gmap nat (list Part001Stats.LinkStats)) (st : Part001Stats.Stats) :
  Part001Stats.getStats S t h = Part001Stats.Done (st, h') ->
  exists links,
    Part001Stats.scan_rows (Part001Stats.by_visits S t) = Part001Stats.Done links /\
    let window := {| Part001Stats.array := fresh (dom h); Part001Stats.offset := 0;
                     Part001Stats.len := Nat.min 10 (length links) |} in
    Part001Stats.PopularLinks st = window /\
    Part001Stats.MostClickedLinks st = window /\
    Part001Stats.RecentLinks st = window /\
    h' !! fresh (dom h)
    = Some (Part001Stats.sortSlice S Part001Stats.created_after links) /\
    Part001Stats.TotalLinks st = Z.of_nat (length t) /\
    Part001Stats.TotalClicks st = Part001Stats.sum_visits t /\
    Part001Stats.ClicksToday st
    = Part001Stats.sum_visits (List.filter (Part001Stats.created_today S) t).
Proof.
  unfold Part001Stats.getStats.
  destruct (Part001Stats.fails S Part001Stats.CountLinks); [discriminate|].
  destruct (Part001Stats.fails S Part001Stats.SumClicks); [discriminate|].
  destruct (Part001Stats.fails S Part001Stats.SumClicksToday); [discriminate|].
  destruct (Part001Stats.fails S Part001Stats.SelectAllLinks); [discriminate|].
  destruct (Part001Stats.scan_rows (Part001Stats.by_visits S t)) as [links|];
    [|discriminate].
  unfold Part001Stats.alloc, Part001Stats.sort_in_place, Part001Stats.slice_to.
  cbn [Part001Stats.array Part001Stats.offset Part001Stats.len].
  rewrite lookup_insert_eq, min_nat. intros H. injection H as <- <-.
  exists links. split; [reflexivity|]. cbn.
  repeat split. rewrite lookup_insert_eq.
  rewrite drop_0, take_ge, drop_ge, app_nil_r by lia. reflexivity.
Qed.

(** X13.  [getStats] returns one list three times.  [PopularLinks] and
    [MostClickedLinks] are cut from [allLinks] before [sort.Slice] reorders
    that same array by creation time, so when the call returns all three
    slices show the first 10 links in the order of [sort.Slice]: the most
    recent ones, not the most visited. *)
Theorem popular_links_are_the_recent_ones (S : Part001Stats.StatsEnv) (t : list Row)
    (h h' : gmap nat (list Part001Stats.LinkStats)) (st : Part001Stats.Stats) :
  Part001Stats.getStats S t h = Part001Stats.Done (st, h') ->
  exists links,
    Part001Stats.scan_rows (Part001Stats.by_visits S t) = Part001Stats.Done links /\
    Part001Stats.elems h' (Part001Stats.RecentLinks st)
    = take (Nat.min 10 (length links))
           (Part001Stats.sortSlice S Part001Stats.created_after links) /\
    Part001Stats.elems h' (Part001Stats.PopularLinks st)
    = Part001Stats.elems h' (Part001Stats.RecentLinks st) /\
    Part001Stats.elems h' (Part001Stats.MostClickedLinks st)
    = Part001Stats.elems h' (Part001Stats.RecentLinks st).
Proof.
  intros H. apply getStats_Done in H as (links & Hl & Hp & Hm & Hr & Hh & _).
  exists links. split; [exact Hl|]. rewrite Hp, Hm, Hr.
  unfold Part001Stats.elems. cbn. rewrite Hh. cbn. rewrite drop_0. auto.
Qed.

Lemma popular_links_are_the_recent_ones_witness :
  exists st h',
    Part001Stats.getStats demo_stats_env two_links ∅ = Part001Stats.Done (st, h') /\
    map Part001Stats.ShortURL (Part001Stats.elems h' (Part001Stats.PopularLinks st))
    = ["new2"; "old1"] /\
    Part001Stats.elems h' (Part001Stats.PopularLinks st)
    = Part001Stats.elems h' (Part001Stats.RecentLinks st).
Proof.
  destruct (Part001Stats.getStats demo_stats_env two_links ∅) as [[st h']|] eqn:H;
    [|vm_compute in H; discriminate].
  exists st, h'. split; [reflexivity|].
  destruct (popular_links_are_the_recent_ones demo_stats_env two_links ∅ h' st H)
    as (links & _ & _ & Hp & _).
  split; [|exact Hp].
  vm_compute in H. injection H as <- <-. vm_compute. reflexivity.
Defined.

Lemma scanned_rows (rows : list Row) (links : list Part001Stats.LinkStats) :
  Forall2 (fun r l => Part001Stats.scan_link r = Part001Stats.Done l) rows links ->
  length links = length rows /\
  forall x, x ∈ links <->
            exists r, r ∈ rows /\ Part001Stats.scan_link r = Part001Stats.Done x.
Proof.
  induction 1 as [|r l rows links Hrl _ [IHlen IH]]; simpl.
  - split; [reflexivity|]. intros x. rewrite elem_of_nil.
    split; [tauto | intros (r & Hr & _); apply elem_of_nil in Hr; exact Hr].
  - split; [congruence|]. intros x. rewrite elem_of_cons, IH. split.
    + intros [->|(r' & Hr' & Hx)]; [exists r | exists r'];
        rewrite elem_of_cons; auto.
    + intros (r' & Hr' & Hx). apply elem_of_cons in Hr' as [->|Hr'].
      * left. congruence.
      * right. eauto.
Qed.

(** X14.  When [sort.Slice] does what it promises and the query returns
    every row once, [RecentLinks] holds [min(10, number of rows)] links,
    none more recent than one before it, and no link left out is more
    recent than a link in the list; each of them is a row of the table. *)
Theorem recent_links_are_the_newest (S : Part001Stats.StatsEnv) (t : list Row)
    (h h' : gmap nat (list Part001Stats.LinkStats)) (st : Part001Stats.Stats) :
  Part001Stats.sorts_by_recency S ->
  Part001Stats.by_visits S t ≡ₚ t ->
  Part001Stats.getStats S t h = Part001Stats.Done (st, h') ->
  let recent := Part001Stats.elems h' (Part001Stats.RecentLinks st) in
  length recent = Nat.min 10 (length t) /\
  Part001Stats.newest_first recent /\
  (forall x, x ∈ recent ->
     exists r, r ∈ t /\ Part001Stats.scan_link r = Part001Stats.Done x) /\
  exists others,
    (forall x, x ∈ recent ++ others <->
       exists r, r ∈ t /\ Part001Stats.scan_link r = Part001Stats.Done x) /\
    length (recent ++ others) = length t /\
    forall x y, x ∈ recent -> y ∈ others ->
      (Part001Stats.CreatedAt y <= Part001Stats.CreatedAt x)%Z.
Proof.
  intros Hsort Hperm H recent.
  pose proof H as H0.
  apply getStats_Done in H0 as (links & Hl & _ & _ & Hr & Hh & _).
  assert (Hrecent : recent
            = take (Nat.min 10 (length links))
                   (Part001Stats.sortSlice S Part001Stats.created_after links)).
  { unfold recent, Part001Stats.elems. rewrite Hr. cbn. rewrite Hh. cbn.
    rewrite drop_0. reflexivity. }
  destruct (Hsort links) as [Hp Hs].
  apply scan_rows_Done, scanned_rows in Hl as [Hlen Hmem].
  rewrite (Permutation_length Hperm) in Hlen.
  assert (Hrows : forall x,
            x ∈ Part001Stats.sortSlice S Part001Stats.created_after links <->
            exists r, r ∈ t /\ Part001Stats.scan_link r = Part001Stats.Done x).
  { intros x. rewrite Hp, Hmem. split; intros (r & Hr' & Hx); exists r.
    - rewrite <- Hperm. auto.
    - rewrite Hperm. auto. }
  assert (Hlen' : length (Part001Stats.sortSlice S Part001Stats.created_after links)
                  = length t).
  { rewrite (Permutation_length Hp). exact Hlen. }
  set (sorted := Part001Stats.sortSlice S Part001Stats.created_after links) in *.
  rewrite Hlen in Hrecent. rewrite Hrecent. clear recent Hrecent.
  pose proof (take_drop (Nat.min 10 (length t)) sorted) as Hsplit.
  unfold Part001Stats.newest_first in *. rewrite <- Hsplit in Hs.
  apply StronglySorted_app in Hs as (Hcross & Hs1 & _).
  split; [rewrite length_take, Hlen'; lia|]. split; [exact Hs1|]. split.
  - intros x Hx. apply Hrows. rewrite <- Hsplit. apply elem_of_app. auto.
  - exists (drop (Nat.min 10 (length t)) sorted). rewrite Hsplit.
    split; [exact Hrows|]. split; [exact Hlen'|]. intros x y Hx Hy. auto.
Qed.

Lemma StronglySorted_weaken {A} (R R' : A -> A -> Prop) (l : list A) :
  (forall a b, R a b -> R' a b) -> StronglySorted R l -> StronglySorted R' l.
Proof.
  intros HR. induction 1 as [|a l Hs IH Hall]; constructor; [exact IH|].
  eapply Forall_impl; [exact Hall | intros b Hb; apply HR; exact Hb].
Qed.

Lemma demo_sort_sorts : Part001Stats.sorts_by_recency demo_stats_env.
Proof.
  intros l. simpl. unfold demo_sort. split; [apply merge_sort_Permutation|].
  unfold Part001Stats.newest_first.
  eapply StronglySorted_weaken; [|apply StronglySorted_merge_sort].
  - intros a b Hab. unfold Part001Stats.created_after in Hab.
    apply Z.ltb_ge in Hab. exact Hab.
  - intros a b c Hab Hbc. unfold Part001Stats.created_after in *.
    apply Z.ltb_ge in Hab, Hbc. apply Z.ltb_ge. lia.
  - intros a b. unfold Part001Stats.created_after.
    destruct (Z.ltb_spec (Part001Stats.CreatedAt a) (Part001Stats.CreatedAt b));
      [right; apply Z.ltb_ge; lia | left; reflexivity].
Qed.

Lemma recent_links_are_the_newest_witness :
  Part001Stats.sorts_by_recency demo_stats_env /\
  Part001Stats.by_visits demo_stats_env two_links ≡ₚ two_links /\
  exists st h',
    Part001Stats.getStats demo_stats_env two_links ∅ = Part001Stats.Done (st, h') /\
    length (Part001Stats.elems h' (Part001Stats.RecentLinks st))
    = Nat.min 10 (length two_links) /\
    Part001Stats.newest_first (Part001Stats.elems h' (Part001Stats.RecentLinks st)).
Proof.
  split; [exact demo_sort_sorts|]. split; [reflexivity|].
  destruct (Part001Stats.getStats demo_stats_env two_links ∅) as [[st h']|] eqn:H;
    [|vm_compute in H; discriminate].
  exists st, h'. split; [reflexivity|].
  destruct (recent_links_are_the_newest demo_stats_env two_links ∅ h' st
              demo_sort_sorts (reflexivity _) H) as (Hlen & Hs & _).
  split; [exact Hlen | exact Hs].
Defined.

(** X15.  [getStats] needs a [created_at] in every row.  When no query
    hits a storage error it succeeds exactly when no row holds a NULL
    there, and fails on the scan of such a row otherwise.  After the
    start-up of [part_001] on a table that lacked the column it always
    succeeds; a table that has the column is left as it is by the
    start-up, so a NULL in it makes [getStats] fail as before. *)
Theorem getStats_needs_created_at (S : Part001Stats.StatsEnv) (t : list Row)
    (h : gmap nat (list Part001Stats.LinkStats)) (now : Z) :
  (forall q, Part001Stats.fails S q = false) ->
  (forall t', Part001Stats.by_visits S t' ≡ₚ t') ->
  (Forall (fun r => is_Some (created_at r)) t ->
   exists st h', Part001Stats.getStats S t h = Part001Stats.Done (st, h')) /\
  (~ Forall (fun r => is_Some (created_at r)) t ->
   Part001Stats.getStats S t h = Part001Stats.Failed Part001Stats.NullCreatedAt /\
   Part001Stats.getStats S (Part001.startup true now t) h
   = Part001Stats.Failed Part001Stats.NullCreatedAt) /\
  exists st h',
    Part001Stats.getStats S (Part001.startup false now t) h
    = Part001Stats.Done (st, h').
Proof.
  intros Hf Hperm.
  assert (Hok : forall t', Forall (fun r => is_Some (created_at r)) t' ->
            exists st h', Part001Stats.getStats S t' h = Part001Stats.Done (st, h')).
  { intros t' Hall. unfold Part001Stats.getStats. rewrite !Hf.
    destruct (scan_rows_stamped (Part001Stats.by_visits S t')) as [links ->].
    - rewrite (Hperm t'). exact Hall.
    - unfold Part001Stats.alloc. eauto. }
  split; [apply Hok|]. split.
  - intros Hnull.
    assert (Hfail : Part001Stats.getStats S t h
                    = Part001Stats.Failed Part001Stats.NullCreatedAt).
    { unfold Part001Stats.getStats. rewrite !Hf.
      rewrite scan_rows_null; [reflexivity|]. rewrite (Hperm t). exact Hnull. }
    split; exact Hfail.
  - apply Hok. apply migrate_all_stamped.
Qed.

Lemma getStats_needs_created_at_witness :
  (Part001Stats.getStats demo_stats_env legacy_links ∅
   = Part001Stats.Failed Part001Stats.NullCreatedAt /\
   exists st h',
     Part001Stats.getStats demo_stats_env
       (Part001.startup false 1700000900 legacy_links) ∅
     = Part001Stats.Done (st, h')) /\
  (Part001Stats.getStats demo_stats_env patchy_links ∅
   = Part001Stats.Failed Part001Stats.NullCreatedAt /\
   Part001Stats.getStats demo_stats_env
     (Part001.startup true 1700000900 patchy_links) ∅
   = Part001Stats.Failed Part001Stats.NullCreatedAt) /\
  exists st h',
    Part001Stats.getStats demo_stats_env two_links ∅ = Part001Stats.Done (st, h').
Proof.
  split; [|split].
  - destruct (getStats_needs_created_at demo_stats_env legacy_links ∅ 1700000900)
      as (_ & Hnull & Hmig).
    + intros q. reflexivity.
    + intros t'. reflexivity.
    + split; [|exact Hmig]. apply Hnull. intros Hall.
      apply Forall_cons in Hall as [[x Hx] _]. discriminate.
  - destruct (getStats_needs_created_at demo_stats_env patchy_links ∅ 1700000900)
      as (_ & Hnull & _).
    + intros q. reflexivity.
    + intros t'. reflexivity.
    + apply Hnull. intros Hall.
      apply Forall_cons in Hall as [[x Hx] _]. discriminate.
  - destruct (getStats_needs_created_at demo_stats_env two_links ∅ 1700000900)
      as (Hok & _ & _).
    + intros q. reflexivity.
    + intros t'. reflexivity.
    + apply Hok. repeat constructor; eexists; reflexivity.
Defined.

Lemma sum_visits_filter (f : Row -> bool) (t : list Row) :
  Forall (fun r => (0 <= visit_count r)%Z) t ->
  (0 <= Part001Stats.sum_visits (List.filter f t) <= Part001Stats.sum_visits t)%Z.
Proof.
  induction 1 as [|r t Hr _ IH]; simpl; [lia|].
  destruct (f r); simpl; lia.
Qed.

(** X16.  The totals of [getStats]: [TotalLinks] is the number of rows,
    [TotalClicks] the sum of their visit counts, and [ClicksToday] the sum
    of the visit counts of the rows created today, whenever their visits
    were made; with no negative count it lies between 0 and
    [TotalClicks]. *)
Theorem stats_totals (S : Part001Stats.StatsEnv) (t : list Row)
    (h h' : gmap nat (list Part001Stats.LinkStats)) (st : Part001Stats.Stats) :
  Part001Stats.getStats S t h = Part001Stats.Done (st, h') ->
  Forall (fun r => (0 <= visit_count r)%Z) t ->
  Part001Stats.TotalLinks st = Z.of_nat (length t) /\
  Part001Stats.TotalClicks st = Part001Stats.sum_visits t /\
  Part001Stats.ClicksToday st
  = Part001Stats.sum_visits (List.filter (Part001Stats.created_today S) t) /\
  (0 <= Part001Stats.ClicksToday st <= Part001Stats.TotalClicks st)%Z.
Proof.
  intros H Hpos.
  apply getStats_Done in H as (links & _ & _ & _ & _ & _ & H1 & H2 & H3).
  rewrite H1, H2, H3. repeat split; try apply sum_visits_filter; exact Hpos.
Qed.

Lemma stats_totals_witness :
  Forall (fun r => (0 <= visit_count r)%Z) two_links /\
  exists st h',
    Part001Stats.getStats demo_stats_env two_links ∅ = Part001Stats.Done (st, h') /\
    Part001Stats.TotalLinks st = 2%Z /\
    Part001Stats.TotalClicks st = Part001Stats.sum_visits two_links /\
    (0 <= Part001Stats.ClicksToday st <= Part001Stats.TotalClicks st)%Z.
Proof.
  assert (Hpos : Forall (fun r => (0 <= visit_count r)%Z) two_links).
  { repeat constructor; simpl; lia. }
  split; [exact Hpos|].
  destruct (Part001Stats.getStats demo_stats_env two_links ∅) as [[st h']|] eqn:H;
    [|vm_compute in H; discriminate].
  exists st, h'. split; [reflexivity|].
  destruct (stats_totals demo_stats_env two_links ∅ h' st H Hpos) as (H1 & H2 & _ & H4).
  split; [exact H1|]. split; [exact H2 | exact H4].
Defined.

Lemma execInsert_Ok_last (E : Env) (c u : string) (w w1 : World) (x : unit) :
  execInsert E c u true w = (Ok x, w1) ->
  journal w1 = journal w ++ [(InsertMapping c u true, true)] /\
  url_mapping w1 = url_mapping w ++ [row c u 0 (Some (clock E (length (journal w))))].
Proof.
  unfold execInsert, issue, insert_mapping.
  destruct (negb _); [|discriminate]. simpl.
  destruct (select_exists c (url_mapping w)); [discriminate|].
  intros H. inversion H; subst; clear H. simpl. split; reflexivity.
Qed.

(** The INSERT of a code that the loop returns is the last statement of
    the call, and the row carries the time of the store at it. *)
Lemma mint_Ok_stamped (E : Env) (len : Z) (fuel : nat) (u c : string) (w w' : World) :
  mint E len true fuel u w = (Some (Ok c), w') ->
  exists j,
    journal w' = j ++ [(InsertMapping c u true, true)] /\
    url_mapping w' = url_mapping w ++ [row c u 0 (Some (clock E (length j)))] /\
    select_exists c (url_mapping w) = false.
Proof.
  revert w. induction fuel as [|fuel IH]; intros w H; simpl in H; [discriminate|].
  destruct (randomString E len w) as [[s| |] w1] eqn:Hr; try discriminate.
  apply randomString_Ok_inv in Hr as (_ & _ & Ht1 & _ & _).
  destruct (shortURLExists E s w1) as [[[|]| |] w2] eqn:Hx; try discriminate.
  - apply shortURLExists_inv in Hx as (_ & Ht2 & _).
    destruct (IH w2 H) as (j & Hj & Happ & Hfree).
    rewrite Ht2, Ht1 in Happ, Hfree. eauto.
  - apply shortURLExists_inv in Hx as (Hfree & Ht2 & _).
    destruct (execInsert E s u true w2) as [[x| |] w3] eqn:Hi; try discriminate.
    injection H as -> ->.
    apply execInsert_Ok_last in Hi as (Hj & Happ).
    rewrite Ht2, Ht1 in Happ. rewrite Ht1 in Hfree.
    exists (journal w2). auto.
Qed.

(** X17.  The statistics of a link that was just created: after
    [createShortURL] minted the code [c] for [u], the INSERT of the row is
    the last statement that the call issued, and [getLinkStats(c)] returns
    the short URL [c], the long URL [u], no visit, and as creation time the
    time of the store at that INSERT. *)
Theorem link_stats_of_new_code (E : Env) (S : Part001Stats.StatsEnv) (fuel : nat)
    (u c : string) (w w' : World) :
  select_short_by_long u (url_mapping w) = None ->
  Part001.createShortURL E fuel u w = (Some (Ok c), w') ->
  Part001Stats.fails S (Part001Stats.SelectLink c) = false ->
  exists j,
    journal w' = j ++ [(InsertMapping c u true, true)] /\
    Part001Stats.getLinkStats S c (url_mapping w')
    = Part001Stats.Done
        {| Part001Stats.ShortURL := c; Part001Stats.LongURL := u;
           Part001Stats.VisitCount := 0;
           Part001Stats.CreatedAt := clock E (length j) |}.
Proof.
  intros Hnew Hcreate Hf.
  unfold Part001.createShortURL, issue in Hcreate.
  destruct (negb _); [|discriminate]. cbn [url_mapping] in Hcreate.
  rewrite Hnew in Hcreate.
  apply mint_Ok_stamped in Hcreate as (j & Hj & Happ & Hfree). simpl in Happ, Hfree.
  exists j. split; [exact Hj|].
  unfold Part001Stats.getLinkStats. rewrite Hf, Happ.
  unfold select_exists in Hfree. rewrite find_app_none by exact Hfree.
  simpl. unfold has_short. simpl. rewrite bool_decide_eq_true_2 by reflexivity.
  reflexivity.
Qed.

Lemma link_stats_of_new_code_witness :
  select_short_by_long example_com (url_mapping empty_world) = None /\
  Part001.createShortURL demo_env 1 example_com empty_world
  = (Some (Ok "123a"),
     snd (Part001.createShortURL demo_env 1 example_com empty_world)) /\
  exists j,
    journal (snd (Part001.createShortURL demo_env 1 example_com empty_world))
    = j ++ [(InsertMapping "123a" example_com true, true)] /\
    Part001Stats.getLinkStats demo_stats_env "123a"
      (url_mapping (snd (Part001.createShortURL demo_env 1 example_com empty_world)))
    = Part001Stats.Done
        {| Part001Stats.ShortURL := "123a"; Part001Stats.LongURL := example_com;
           Part001Stats.VisitCount := 0;
           Part001Stats.CreatedAt := clock demo_env (length j) |}.
Proof.
  split; [reflexivity|]. split; [reflexivity|].
  apply (link_stats_of_new_code demo_env demo_stats_env 1 example_com "123a" empty_world);
    reflexivity.
Defined.

(** ** The create handler of [main.go] *)

Lemma execInsert_not_Ok (E : Env) (c u : string) (st : bool) (w w1 : World)
    (o : Outcome unit) :
  execInsert E c u st w = (o, w1) ->
  (forall x, o <> Ok x) ->
  url_mapping w1 = url_mapping w /\ visitCountCache w1 = visitCountCache w.
Proof.
  unfold execInsert, issue, insert_mapping.
  destruct (negb _); simpl.
  - destruct (select_exists c (url_mapping w)); simpl; intros H Ho.
    + injection H as _ <-. auto.
    + injection H as <- _. exfalso. eapply Ho. reflexivity.
  - intros H _. injection H as _ <-. auto.
Qed.

(** The loop changes the table only when it returns a code. *)
Lemma mint_not_Ok (E : Env) (len : Z) (st : bool) (fuel : nat) (u : string)
    (w w' : World) (r : option (Outcome string)) :
  mint E len st fuel u w = (r, w') ->
  (forall c, r <> Some (Ok c)) ->
  url_mapping w' = url_mapping w.
Proof.
  revert w. induction fuel as [|fuel IH]; intros w H Hr; simpl in H.
  { injection H as _ <-. reflexivity. }
  pose proof (randomString_world E len w) as (Ht1 & _ & _).
  destruct (randomString E len w) as [[s| |] w1]; simpl in *;
    try (injection H as _ <-; exact Ht1).
  pose proof (shortURLExists_world E s w1) as (Ht2 & _).
  destruct (shortURLExists E s w1) as [[[|]| |] w2]; simpl in *;
    try (injection H as _ <-; congruence).
  - rewrite (IH w2 H Hr). congruence.
  - destruct (execInsert E s u st w2) as [[x| |] w3] eqn:Hi.
    + injection H as <- _. exfalso. eapply Hr. reflexivity.
    + injection H as _ <-.
      apply execInsert_not_Ok in Hi as [Ht3 _]; [congruence | discriminate].
    + injection H as _ <-.
      apply execInsert_not_Ok in Hi as [Ht3 _]; [congruence | discriminate].
Qed.

(** X18.  The create handler of [main.go] lets a long URL into the table
    only through its four guards: a reply that carries a short URL means
    that the request was a POST with exactly the Content-Type
    [application/x-www-form-urlencoded], that [url.ParseRequestURI]
    accepted the URL and that it has at most 2048 bytes, and then the one
    row appended maps the 8-byte code of the reply to that URL.  Every
    other reply leaves the table as it was, and a request that fails a
    guard touches nothing at all: no statement, no random byte. *)
Theorem handleCreate_guards (E : Env) (parseRequestURI : string -> bool)
    (fuel : nat) (r : MainGoCreate.HttpRequest) (w : World) :
  let '(reply, w') := MainGoCreate.handleCreate E parseRequestURI fuel r w in
  match reply with
  | Some (MainGoCreate.Written body) =>
      MainGoCreate.admitted parseRequestURI r = true /\
      exists c, body = "goby.lol/r/" +:+ c /\ String.length c = 8 /\
                url_mapping w'
                = url_mapping w ++ [row c (MainGoCreate.FormURL r) 0 None]
  | _ => url_mapping w' = url_mapping w
  end /\
  visitCountCache w' = visitCountCache w /\
  if MainGoCreate.admitted parseRequestURI r then True else w' = w.
Proof.
  unfold MainGoCreate.handleCreate, MainGoCreate.admitted.
  destruct (bool_decide (MainGoCreate.Method r = "POST")); simpl; [|auto].
  destruct (bool_decide (MainGoCreate.ContentType r = _)); simpl; [|auto].
  destruct (parseRequestURI (MainGoCreate.FormURL r)); simpl; [|auto].
  destruct (Nat.ltb_spec 2048 (String.length (MainGoCreate.FormURL r))) as [Hlen|Hlen].
  { rewrite (proj2 (Nat.leb_gt _ _)) by exact Hlen. auto. }
  rewrite (proj2 (Nat.leb_le _ _)) by exact Hlen.
  unfold MainGo.createShortURL.
  pose proof (mint_world E 8 false fuel (MainGoCreate.FormURL r) w) as [Hc _].
  destruct (mint E 8 false fuel (MainGoCreate.FormURL r) w) as [[[c|e|msg]|] w1] eqn:Hm;
    simpl in Hc; (split; [|split; [exact Hc | exact I]]).
  - apply mint_Ok_unstamped in Hm as (Happ & _ & Hl). split; [reflexivity|]. eauto.
  - eapply mint_not_Ok; [exact Hm | discriminate].
  - eapply mint_not_Ok; [exact Hm | discriminate].
  - eapply mint_not_Ok; [exact Hm | discriminate].
Qed.

Example handleCreate_examples :
  fst (MainGoCreate.handleCreate demo_env demo_parse 1 post_example empty_world)
  = Some (MainGoCreate.Written "goby.lol/r/123abc12") /\
  MainGoCreate.handleCreate demo_env demo_parse 1
    {| MainGoCreate.Method := "GET"; MainGoCreate.ContentType := "";
       MainGoCreate.FormURL := example_com |} empty_world
  = (Some (MainGoCreate.Found "/"), empty_world) /\
  MainGoCreate.handleCreate demo_env demo_parse 1
    {| MainGoCreate.Method := "POST";
       MainGoCreate.ContentType := "application/x-www-form-urlencoded; charset=UTF-8";
       MainGoCreate.FormURL := example_com |} empty_world
  = (Some (MainGoCreate.HttpError "Invalid Content-Type" 400), empty_world).
Proof. vm_compute. repeat split; reflexivity. Qed.

(** ** The redirect handler of [part_002] *)

(** X19.  The [handleRedirect] of [part_002] trims the prefix "/#/", not
    "/r/": a path that begins with "/r/" is looked up whole.  Unless some
    row has that whole path as its [short_url], the answer is the redirect
    to "/" and no visit is counted, and that even when the code after
    "/r/" has a row. *)
Theorem Part002_redirect_looks_up_whole_path (E : Env) (c : string) (w : World) :
  select_long_by_short ("/r/" +:+ c) (url_mapping w) = None ->
  let '(resp, w') := Part002.handleRedirect E ("/r/" +:+ c) w in
  resp = Redirect "/" /\
  visitCountCache w' = visitCountCache w /\
  url_mapping w' = url_mapping w /\
  exists ok, issued_since w w' = [(SelectLongByShort ("/r/" +:+ c), ok)].
Proof.
  intros Hmiss. unfold Part002.handleRedirect.
  assert (Hkeep : TrimPrefix ("/r/" +:+ c) "/#/" = "/r/" +:+ c).
  { unfold TrimPrefix.
    change ("/r/" +:+ c) with (String "/" (String "r" (String "/" c))).
    reflexivity. }
  rewrite Hkeep. unfold getLongURL, issue.
  destruct (negb (faulty E (length (journal w)) (SelectLongByShort ("/r/" +:+ c))));
    cbn [url_mapping]; [rewrite Hmiss|];
    (repeat split; eexists; apply issued_since_snoc).
Qed.

Lemma Part002_redirect_looks_up_whole_path_witness :
  select_long_by_short ("/r/" +:+ "1a2b") (url_mapping demo_store) = None /\
  select_long_by_short "1a2b" (url_mapping demo_store) = Some example_com /\
  let '(resp, w') := Part002.handleRedirect demo_env ("/r/" +:+ "1a2b") demo_store in
  resp = Redirect "/" /\
  visitCountCache w' = visitCountCache demo_store /\
  url_mapping w' = url_mapping demo_store /\
  exists ok, issued_since demo_store w' = [(SelectLongByShort ("/r/" +:+ "1a2b"), ok)].
Proof.
  split; [reflexivity|]. split; [reflexivity|].
  apply (Part002_redirect_looks_up_whole_path demo_env "1a2b" demo_store).
  reflexivity.
Defined.

(** ** The dispatch under [/r/] in [part_001] *)

Lemma length_append (p c : string) :
  String.length (p +:+ c) = String.length p + String.length c.
Proof.
  induction p as [|a p IH]; [reflexivity|].
  change (String a p +:+ c) with (String a (p +:+ c)). simpl. rewrite IH. reflexivity.
Qed.

Lemma substring_skip (p c : string) (n : nat) :
  String.substring (String.length p) n (p +:+ c) = String.substring 0 n c.
Proof.
  induction p as [|a p IH]; [reflexivity|].
  change (String a p +:+ c) with (String a (p +:+ c)). simpl. exact IH.
Qed.

Lemma substring_head (p c : string) :
  String.substring 0 (String.length p) (p +:+ c) = p.
Proof.
  induction p as [|a p IH].
  - change ("" +:+ c) with c. simpl. destruct c; reflexivity.
  - change (String a p +:+ c) with (String a (p +:+ c)). simpl. rewrite IH.
    reflexivity.
Qed.

Lemma HasSuffix_app (c suffix : string) :
  Part001Route.HasSuffix (c +:+ suffix) suffix = true.
Proof.
  unfold Part001Route.HasSuffix. rewrite length_append.
  replace (String.length c + String.length suffix - String.length suffix)
    with (String.length c) by lia.
  rewrite substring_skip, substring_all.
  rewrite bool_decide_eq_true_2 by reflexivity.
  rewrite andb_true_r. apply Nat.leb_le. lia.
Qed.

(** X20.  Under [/r/], the path of a code followed by "/stats" goes to the
    statistics of exactly that code, for every code; every other path goes
    to the redirect.  A code that itself ends in "/stats" can therefore
    not be redirected: its path shows the statistics of the code without
    that ending. *)
Theorem dispatch_stats_suffix (c : string) :
  Part001Route.dispatch ("/r/" +:+ c +:+ "/stats") = Part001Route.ToLinkStats c /\
  forall urlPath,
    Part001Route.dispatch urlPath = Part001Route.ToRedirect <->
    Part001Route.HasSuffix (TrimPrefix urlPath "/r/") "/stats" = false.
Proof.
  split.
  - unfold Part001Route.dispatch, Part001Route.TrimSuffix.
    rewrite TrimPrefix_app, HasSuffix_app, length_append.
    replace (String.length c + String.length "/stats" - String.length "/stats")
      with (String.length c) by lia.
    rewrite substring_head. reflexivity.
  - intros urlPath. unfold Part001Route.dispatch.
    destruct (Part001Route.HasSuffix (TrimPrefix urlPath "/r/") "/stats");
      split; (discriminate || reflexivity).
Qed.
